(** * Peer resolution of hydragram ([hydragram/peer_resolve.py])

    A shallow embedding of [PeerResolver] and the properties its
    specification states about it.

    - Python strings are modelled by [string]; a character stands for the
      Unicode code point of the same number (U+0000 to U+00FF), and
      [str.lower], [\w], [\s] and [int] are given on these code points as
      CPython defines them.
    - The regular expression of [_parse_input_string] is kept as a syntax
      tree and run by a backtracking matcher with Python's priorities
      (left alternative first, greedy repetition).
    - The client ([pyrogram.Client]) is an oracle over an abstract state:
      each call into it is logged in a trace, so that the order of the
      calls can be stated.
    - [pyrogram.utils] is an external library and is taken as a parameter
      ([Utils]). *)

From Stdlib Require Import ZArith NArith List String Ascii Bool Lia.
Import ListNotations.

Local Open Scope string_scope.

(* ===================================================================== *)
(** * Exceptions and results *)

(** The class an exception is matched as by an [except] clause. *)
Inductive exn_class : Type :=
| ConnectionError
| KeyError
| AttributeError
| OperationalError      (* sqlite3.OperationalError *)
| ValueError
| TypeError
| IndexError
| PeerIdInvalid         (* pyrogram.errors.PeerIdInvalid *)
| OtherException (name : string).

Inductive exn : Type :=
| Exc (cls : exn_class) (msg : string).

Definition exn_cls (e : exn) : exn_class :=
  match e with Exc c _ => c end.

Inductive outcome (A : Type) : Type :=
| Ok (a : A)
| Raise (e : exn).
Arguments Ok {A} a.
Arguments Raise {A} e.

Definition is_ValueError (e : exn) : bool :=
  match exn_cls e with ValueError => true | _ => false end.

(* ===================================================================== *)
(** * Characters and strings as Python sees them *)

Module PyStr.

Definition code (c : ascii) : N := N_of_ascii c.

Definition between (lo hi : N) (c : ascii) : bool :=
  ((lo <=? code c) && (code c <=? hi))%N.

Definition is_upper (c : ascii) : bool :=
  between 65 90 c || between 192 214 c || between 216 222 c.

(** [str.lower] on one code point: A-Z, and the Latin-1 capitals
    U+00C0-U+00DE except the multiplication sign U+00D7. *)
Definition lower_char (c : ascii) : ascii :=
  if is_upper c then ascii_of_N (code c + 32) else c.

Fixpoint lower (s : string) : string :=
  match s with
  | EmptyString => EmptyString
  | String c s' => String (lower_char c) (lower s')
  end.

(** Decimal digits ([str.isdecimal]): the digits [int] accepts. *)
Definition is_decimal (c : ascii) : bool := between 48 57 c.

(** [str.isalnum]: letters, decimal digits, and the code points with a
    digit or numeric value (superscripts 1-3, the vulgar fractions). *)
Definition is_alnum (c : ascii) : bool :=
  is_decimal c || between 65 90 c || between 97 122 c
  || between 170 170 c || between 178 179 c || between 181 181 c
  || between 185 186 c || between 188 190 c
  || between 192 214 c || between 216 246 c || between 248 255 c.

(** [\w] of a str pattern. *)
Definition is_word (c : ascii) : bool :=
  is_alnum c || between 95 95 c.

(** [\s] of a str pattern, and the blanks [str.strip] and [int] skip. *)
Definition is_space (c : ascii) : bool :=
  between 9 13 c || between 28 32 c || between 133 133 c || between 160 160 c.

Fixpoint filter (p : ascii -> bool) (s : string) : string :=
  match s with
  | EmptyString => EmptyString
  | String c s' => if p c then String c (filter p s') else filter p s'
  end.

Fixpoint forallb (p : ascii -> bool) (s : string) : bool :=
  match s with
  | EmptyString => true
  | String c s' => p c && forallb p s'
  end.

(** [strip_prefix l s] is [Some r] when [s = l ++ r]. *)
Fixpoint strip_prefix (l s : string) : option string :=
  match l with
  | EmptyString => Some s
  | String a l' =>
      match s with
      | EmptyString => None
      | String b s' => if Ascii.eqb a b then strip_prefix l' s' else None
      end
  end.

Fixpoint lstrip (s : string) : string :=
  match s with
  | String c s' => if is_space c then lstrip s' else s
  | EmptyString => EmptyString
  end.

Fixpoint rstrip (s : string) : string :=
  match s with
  | EmptyString => EmptyString
  | String c s' =>
      match rstrip s' with
      | EmptyString => if is_space c then EmptyString else String c EmptyString
      | r => String c r
      end
  end.

Definition strip (s : string) : string := rstrip (lstrip s).

Definition digit_value (c : ascii) : Z := Z.of_N (code c) - 48.

(** The digit part of an integer literal in base 10: decimal digits, with
    single underscores allowed between two digits.  [sep] tells that a
    digit must come next (at the start and after an underscore). *)
Fixpoint digits (s : string) (acc : Z) (sep : bool) : option Z :=
  match s with
  | EmptyString => if sep then None else Some acc
  | String c s' =>
      if is_decimal c then digits s' (10 * acc + digit_value c)%Z false
      else if between 95 95 c then
             if sep then None else digits s' acc true
      else None
  end.

(** CPython's default limit on the number of digits of a decimal string
    converted by [int] ([sys.int_info.default_max_str_digits]). *)
Definition max_str_digits : nat := 4300.

(** [int(s)] for a str [s]: blanks around, an optional sign, the digits.
    Everything else is a [ValueError]. *)
Definition py_int (s : string) : outcome Z :=
  let t := strip s in
  let '(neg, body) :=
    match t with
    | String "+" b => (false, b)
    | String "-" b => (true, b)
    | _ => (false, t)
    end in
  match digits body 0 true with
  | Some n =>
      if (String.length (filter is_decimal body) <=? max_str_digits)%nat
      then Ok (if neg then (- n)%Z else n)
      else Raise (Exc ValueError "Exceeds the limit for integer string conversion")
  | None => Raise (Exc ValueError "invalid literal for int() with base 10")
  end.

End PyStr.

(* ===================================================================== *)
(** * Regular expressions ([re]) *)

Module Re.

(** The fragment of the pattern language the resolver uses.  There is at
    most one capturing group, group 1. *)
Inductive regex : Type :=
| Lit (l : string)                 (* literal text *)
| Seq (a b : regex)                (* ab *)
| Alt (a b : regex)                (* a|b *)
| Opt (a : regex)                  (* a? *)
| Plus (p : ascii -> bool)         (* [class]+ *)
| Group (a : regex).               (* (a) *)

Section Matcher.
Context {R : Type}.

(** Greedy repetition of a class: the longest run first, then shorter
    ones when the rest of the pattern fails. *)
Fixpoint star (p : ascii -> bool) (s : string)
         (k : string -> option R) : option R :=
  match s with
  | String c s' =>
      if p c
      then match star p s' k with
           | Some r => Some r
           | None => k s
           end
      else k s
  | EmptyString => k s
  end.

Definition plus (p : ascii -> bool) (s : string)
           (k : string -> option R) : option R :=
  match s with
  | String c s' => if p c then star p s' k else None
  | EmptyString => None
  end.

(** [run r s g k]: match [r] at the start of [s]; [g] is the text of
    group 1 so far, [k] continues on what is left of [s]. *)
Fixpoint run (r : regex) (s : string) (g : option string)
         (k : string -> option string -> option R) : option R :=
  match r with
  | Lit l =>
      match PyStr.strip_prefix l s with
      | Some rest => k rest g
      | None => None
      end
  | Seq a b => run a s g (fun rest g' => run b rest g' k)
  | Alt a b =>
      match run a s g k with
      | Some x => Some x
      | None => run b s g k
      end
  | Opt a =>
      match run a s g k with
      | Some x => Some x
      | None => k s g
      end
  | Plus p => plus p s (fun rest => k rest g)
  | Group a =>
      run a s g
          (fun rest _ =>
             k rest
               (Some (substring 0 (String.length s - String.length rest) s)))
  end.
End Matcher.

(** A match object: what [group(1)] returns ([None] when the group did
    not take part in the match). *)
Record match_object : Type := { group1 : option string }.

(** [re.match(r, s)]: the match is anchored at the start of [s] only. *)
Definition re_match (r : regex) (s : string) : option match_object :=
  run r s None (fun _ g => Some {| group1 := g |}).

(** [re.sub(r"[class]", "", s)]. *)
Definition sub_class_empty (p : ascii -> bool) (s : string) : string :=
  PyStr.filter (fun c => negb (p c)) s.

End Re.

(* ===================================================================== *)
(** * Parsing the identifier *)

(** The result of [_parse_input_string]: [Union[int, str]]. *)
Inductive parsed : Type :=
| PInt (n : Z)
| PStr (s : string).

Module Parse.
Import Re.

(** [(?:https?://)?(?:t\.me/|telegram\.(?:org|me|dog)/)(?:c/)?([\w]+)] *)
Definition link_re : regex :=
  Seq (Opt (Seq (Lit "http") (Seq (Opt (Lit "s")) (Lit "://"))))
      (Seq (Alt (Lit "t.me/")
                (Seq (Lit "telegram.")
                     (Seq (Alt (Lit "org") (Alt (Lit "me") (Lit "dog")))
                          (Lit "/"))))
           (Seq (Opt (Lit "c/"))
                (Group (Plus PyStr.is_word)))).

(** [[@+\s]] *)
Definition decoration (c : ascii) : bool :=
  Ascii.eqb c "@" || Ascii.eqb c "+" || PyStr.is_space c.

Section WithChannelId.
(** [utils.get_channel_id] *)
Variable get_channel_id : Z -> Z.

(** [int(match.group(1))]; [int(None)] is a [TypeError]. *)
Definition int_of_group (g : option string) : outcome Z :=
  match g with
  | Some t => PyStr.py_int t
  | None => Raise (Exc TypeError "int() argument must be a string")
  end.

Definition _parse_input_string (peer_id : string) : outcome parsed :=
  match re_match link_re (PyStr.lower peer_id) with
  | Some m =>
      match int_of_group (group1 m) with
      | Ok n => Ok (PInt (get_channel_id n))
      | Raise e =>
          if is_ValueError e
          then match group1 m with
               | Some t => Ok (PStr t)
               | None => Raise e   (* no group: the error was a TypeError *)
               end
          else Raise e
      end
  | None => Ok (PStr (sub_class_empty decoration (PyStr.lower peer_id)))
  end.
End WithChannelId.

End Parse.

(* ===================================================================== *)
(** * The raw API ([pyrogram.raw]) *)

Inductive InputPeer : Type :=
| InputPeerSelf
| InputPeerUser (user_id access_hash : Z)
| InputPeerChat (chat_id : Z)
| InputPeerChannel (channel_id access_hash : Z).

Record InputUser : Type :=
  { iu_user_id : Z; iu_access_hash : Z }.

Record InputChannel : Type :=
  { ic_channel_id : Z; ic_access_hash : Z }.

Inductive Peer : Type :=
| PeerUser (user_id : Z)
| PeerChat (chat_id : Z)
| PeerChannel (channel_id : Z).

(** [raw.functions]: the requests the resolver sends. *)
Inductive request : Type :=
| ResolveUsername (username : string)      (* contacts.ResolveUsername *)
| GetUsers (id : list InputUser)           (* users.GetUsers *)
| GetChats (id : list Z)                   (* messages.GetChats *)
| GetChannels (id : list InputChannel).    (* channels.GetChannels *)

(** What the resolver is handed: [Union[int, str, None]]. *)
Inductive key : Type :=
| KInt (n : Z)
| KStr (s : string).

Definition identifier : Type := option key.

(** Calls into the client and the logger, in the order they happen. *)
Inductive event : Type :=
| EvGetPeerByUsername (username : string)  (* storage.get_peer_by_username *)
| EvGetPeerById (peer_id : Z)              (* storage.get_peer_by_id *)
| EvExecute (sql param : string)           (* storage.conn.execute *)
| EvFetchone                               (* cursor.fetchone *)
| EvInvoke (q : request)                   (* client.invoke *)
| EvLogDebug (msg : string) (e : exn).     (* log.debug *)

Section Resolver.

(** [State]: whatever the client and its storage hold.  [Obj]: the
    objects the server answers with (users, chats).  [Cursor], [Row]:
    those of the SQLite connection. *)
Variables State Obj Cursor Row : Type.

(** What [client.invoke] returns, as far as the resolver looks at it:
    the attribute [peer], the attribute [chats], or indexing. *)
Inductive response : Type :=
| ResolvedPeer (peer : Peer)
| Vector (items : list Obj)
| Chats (chats : list Obj)
| OtherResult.

(** External: [pyrogram.utils]. *)
Record Utils : Type :=
  { get_channel_id : Z -> Z;
    get_peer_type : Z -> outcome string;
    get_input_peer : Obj -> outcome InputPeer;
    parse_peer_row : Row -> outcome Obj }.

(** External: the client.  A call may change the state and may raise. *)
Record Client : Type :=
  { is_connected : State -> bool;
    storage_get_peer_by_username :
      string -> State -> outcome InputPeer * State;
    storage_get_peer_by_id : Z -> State -> outcome InputPeer * State;
    storage_conn_execute :
      string -> string -> State -> outcome Cursor * State;
    cursor_fetchone : Cursor -> State -> outcome (option Row) * State;
    invoke : request -> State -> outcome response * State }.

(** ** Computations: state, exceptions, and the trace of calls *)

Record result (A : Type) : Type :=
  { res : outcome A; final : State; trace : list event }.
Arguments res {A} r.
Arguments final {A} r.
Arguments trace {A} r.

Definition M (A : Type) : Type := State -> result A.

Definition ret {A} (a : A) : M A :=
  fun st => {| res := Ok a; final := st; trace := [] |}.

Definition raise {A} (e : exn) : M A :=
  fun st => {| res := Raise e; final := st; trace := [] |}.

(** Events [t] happened first, then [r]. *)
Definition after {A} (t : list event) (r : result A) : result A :=
  {| res := res r; final := final r; trace := (t ++ trace r)%list |}.

Definition bind {A B} (m : M A) (k : A -> M B) : M B :=
  fun st =>
    let r := m st in
    match res r with
    | Ok a => after (trace r) (k a (final r))
    | Raise e => {| res := Raise e; final := final r; trace := trace r |}
    end.

(** [try: m  except <classes>: h e] *)
Definition try_except {A} (m : M A) (catches : exn -> bool)
           (h : exn -> M A) : M A :=
  fun st =>
    let r := m st in
    match res r with
    | Ok a => r
    | Raise e =>
        if catches e then after (trace r) (h e (final r)) else r
    end.

Definition lift {A} (o : outcome A) : M A :=
  fun st => {| res := o; final := st; trace := [] |}.

(** One call into the client: logged, then performed. *)
Definition call {A} (ev : event) (f : State -> outcome A * State) : M A :=
  fun st =>
    let '(o, st') := f st in
    {| res := o; final := st'; trace := [ev] |}.

Definition log_debug (msg : string) (e : exn) : M unit :=
  fun st => {| res := Ok tt; final := st; trace := [EvLogDebug msg e] |}.

Notation "x <- m ;; k" := (bind m (fun x => k))
  (at level 61, m at next level, right associativity).
Notation "m ;;; k" := (bind m (fun _ => k))
  (at level 61, right associativity).

(** ** What the resolver reads off a response *)

(** [getattr(result, 'peer', None)] *)
Definition attr_peer (r : response) : option Peer :=
  match r with
  | ResolvedPeer p => Some p
  | _ => None
  end.

(** [l[0]] on a list *)
Definition head_item (l : list Obj) : outcome Obj :=
  match l with
  | x :: _ => Ok x
  | [] => Raise (Exc IndexError "list index out of range")
  end.

(** [users[0]] *)
Definition item0 (r : response) : outcome Obj :=
  match r with
  | Vector l => head_item l
  | _ => Raise (Exc TypeError "object is not subscriptable")
  end.

(** [chats.chats] *)
Definition attr_chats (r : response) : outcome (list Obj) :=
  match r with
  | Chats l => Ok l
  | _ => Raise (Exc AttributeError "object has no attribute 'chats'")
  end.

Definition is_AttributeError (e : exn) : bool :=
  match exn_cls e with AttributeError => true | _ => false end.

(** [except (KeyError, AttributeError, sqlite3.OperationalError)] *)
Definition is_cache_miss (e : exn) : bool :=
  match exn_cls e with
  | KeyError | AttributeError | OperationalError => true
  | _ => false
  end.

(** [peer_id in (None, "self", "me")] *)
Definition is_self (peer_id : identifier) : bool :=
  match peer_id with
  | None => true
  | Some (KStr s) => String.eqb s "self" || String.eqb s "me"
  | Some (KInt _) => false
  end.

Variable utils : Utils.
Variable client : Client.

(** ** [PeerResolver] *)

Definition _parse_input_string : string -> outcome parsed :=
  Parse._parse_input_string (get_channel_id utils).

(** The query of the SQLite fallback. *)
Definition select_peer : string :=
  "SELECT id, access_hash, type FROM peers WHERE username = ?".

Definition _resolve_cached_username (username : string) : M InputPeer :=
  try_except
    (call (EvGetPeerByUsername username)
          (storage_get_peer_by_username client username))
    is_AttributeError
    (fun _ =>
       cursor <- call (EvExecute select_peer (PyStr.lower username))
                      (storage_conn_execute client select_peer
                                            (PyStr.lower username)) ;;
       row <- call EvFetchone (cursor_fetchone client cursor) ;;
       match row with
       | Some r =>
           o <- lift (parse_peer_row utils r) ;;
           lift (get_input_peer utils o)
       | None =>
           raise (Exc KeyError ("Username " ++ username ++ " not in cache"))
       end).

Definition _resolve_username_api (username : string) : M InputPeer :=
  result <- call (EvInvoke (ResolveUsername username))
                 (invoke client (ResolveUsername username)) ;;
  match attr_peer result with
  | Some (PeerUser user_id) => ret (InputPeerUser user_id 0)
  | Some (PeerChannel channel_id) =>
      ret (InputPeerChannel (get_channel_id utils channel_id) 0)
  | _ => raise (Exc PeerIdInvalid "Invalid peer type in API response")
  end.

Definition users_request (peer_id : Z) : request :=
  GetUsers [{| iu_user_id := peer_id; iu_access_hash := 0 |}].

Definition chats_request (peer_id : Z) : request :=
  GetChats [(- peer_id)%Z].

Definition channels_request (peer_id : Z) : request :=
  GetChannels [{| ic_channel_id := get_channel_id utils peer_id;
                  ic_access_hash := 0 |}].

Definition _resolve_by_id (peer_id : Z) : M InputPeer :=
  peer_type <- lift (get_peer_type utils peer_id) ;;
  if String.eqb peer_type "user" then
    users <- call (EvInvoke (users_request peer_id))
                  (invoke client (users_request peer_id)) ;;
    u <- lift (item0 users) ;;
    lift (get_input_peer utils u)
  else if String.eqb peer_type "chat" then
    chats <- call (EvInvoke (chats_request peer_id))
                  (invoke client (chats_request peer_id)) ;;
    l <- lift (attr_chats chats) ;;
    c <- lift (head_item l) ;;
    lift (get_input_peer utils c)
  else
    channels <- call (EvInvoke (channels_request peer_id))
                     (invoke client (channels_request peer_id)) ;;
    l <- lift (attr_chats channels) ;;
    c <- lift (head_item l) ;;
    lift (get_input_peer utils c).

(** The body of the [try] of [resolve]. *)
Definition cache_lookup (k : key) : M InputPeer :=
  match k with
  | KStr s => _resolve_cached_username s
  | KInt n => call (EvGetPeerById n) (storage_get_peer_by_id client n)
  end.

(** [if use_cache: try: return ... except ...: log.debug(...)]:
    [Some p] when the block returns [p], [None] when control falls
    through to the statements below it. *)
Definition cache_tier (k : key) (use_cache : bool) : M (option InputPeer) :=
  if use_cache then
    try_except
      (p <- cache_lookup k ;; ret (Some p))
      is_cache_miss
      (fun e => log_debug "Cache miss" e ;;; ret None)
  else ret None.

(** The statements of [resolve] below the cache block. *)
Definition network_tier (k : key) : M InputPeer :=
  match k with
  | KStr s =>
      p <- lift (_parse_input_string s) ;;
      match p with
      | PStr username => _resolve_username_api username
      | PInt n => _resolve_by_id n
      end
  | KInt n => _resolve_by_id n
  end.

Definition resolve (peer_id : identifier) (use_cache : bool) : M InputPeer :=
  fun st =>
    if negb (is_connected client st)
    then raise (Exc ConnectionError "Client not connected") st
    else
      match peer_id with
      | None => ret InputPeerSelf st
      | Some k =>
          if is_self peer_id then ret InputPeerSelf st
          else
            (hit <- cache_tier k use_cache ;;
             match hit with
             | Some p => ret p
             | None => network_tier k
             end) st
      end.

End Resolver.

Arguments res {State A} r.
Arguments final {State A} r.
Arguments trace {State A} r.
Arguments after {State A} t r.
Arguments ResolvedPeer {Obj} peer.
Arguments Vector {Obj} items.
Arguments Chats {Obj} chats.
Arguments OtherResult {Obj}.
Arguments attr_peer {Obj} r.
Arguments get_channel_id {Obj Row} u n.
Arguments get_peer_type {Obj Row} u n.
Arguments get_input_peer {Obj Row} u o.
Arguments parse_peer_row {Obj Row} u r.
Arguments is_connected {State Obj Cursor Row} c st.
Arguments storage_get_peer_by_username {State Obj Cursor Row} c username st.
Arguments storage_get_peer_by_id {State Obj Cursor Row} c peer_id st.
Arguments storage_conn_execute {State Obj Cursor Row} c sql param st.
Arguments cursor_fetchone {State Obj Cursor Row} c cur st.
Arguments invoke {State Obj Cursor Row} c q st.
Arguments _parse_input_string {Obj Row} utils peer_id.
Arguments _resolve_cached_username {State Obj Cursor Row} utils client username st.
Arguments _resolve_username_api {State Obj Cursor Row} utils client username st.
Arguments channels_request {Obj Row} utils peer_id.
Arguments _resolve_by_id {State Obj Cursor Row} utils client peer_id st.
Arguments cache_lookup {State Obj Cursor Row} utils client k st.
Arguments cache_tier {State Obj Cursor Row} utils client k use_cache st.
Arguments network_tier {State Obj Cursor Row} utils client k st.
Arguments resolve {State Obj Cursor Row} utils client peer_id use_cache st.

(* ===================================================================== *)
(** * What the specification talks about *)

(** The cache call [resolve] makes for an identifier as it was given. *)
Definition cache_key_event (k : key) : event :=
  match k with
  | KStr s => EvGetPeerByUsername s
  | KInt n => EvGetPeerById n
  end.

(** The access hashes of the input peers a request carries. *)
Definition request_access_hashes (q : request) : list Z :=
  match q with
  | ResolveUsername _ => []
  | GetUsers l => map iu_access_hash l
  | GetChats _ => []
  | GetChannels l => map ic_access_hash l
  end.

Definition event_access_hashes (ev : event) : list Z :=
  match ev with
  | EvInvoke q => request_access_hashes q
  | _ => []
  end.

Definition all_zero (l : list Z) : bool := List.forallb (Z.eqb 0) l.

(** The peers [_resolve_username_api] builds: a user or a channel, and
    the access hash it was given. *)
Definition built_access_hash (p : InputPeer) : option Z :=
  match p with
  | InputPeerUser _ h => Some h
  | InputPeerChannel _ h => Some h
  | _ => None
  end.

(** [isinstance(peer, PeerUser)] or [isinstance(peer, PeerChannel)] *)
Definition is_user_or_channel (p : option Peer) : bool :=
  match p with
  | Some (PeerUser _) | Some (PeerChannel _) => true
  | _ => false
  end.

(** A username as a caller writes it: word characters, with or without
    an "@" in front. *)
Definition bare_username (s : string) : string :=
  match s with
  | String "@" t => t
  | _ => s
  end.

Definition is_username (s : string) : bool :=
  PyStr.forallb PyStr.is_word (bare_username s).

Definition no_slash (s : string) : bool :=
  PyStr.forallb (fun c => negb (Ascii.eqb c "/")) s.

(** The first thing a computation does. *)
Definition starts_with {State A} (ev : event) (m : M State A) : Prop :=
  forall st, exists rest, trace (m st) = ev :: rest.

(** Every text a pattern matches has a "/" in it: a sufficient test. *)
Fixpoint needs_slash (r : Re.regex) : bool :=
  match r with
  | Re.Lit l => negb (no_slash l)
  | Re.Seq a b => needs_slash a || needs_slash b
  | Re.Alt a b => needs_slash a && needs_slash b
  | Re.Opt _ => false
  | Re.Plus _ => false
  | Re.Group a => needs_slash a
  end.

(** The text does not go on with a word character. *)
Definition word_ends (rest : string) : bool :=
  match rest with
  | String c _ => negb (PyStr.is_word c)
  | EmptyString => true
  end.

(** Links: an optional scheme, one of the four hosts, then the path. *)
Definition schemes : list string := [""; "http://"; "https://"].
Definition hosts : list string :=
  ["t.me/"; "telegram.org/"; "telegram.me/"; "telegram.dog/"].

(** ["c/x..."] with [x] a word character: the pattern takes ["c/"] as the
    optional prefix of a private link and captures what follows it. *)
Definition c_prefixed (path : string) : bool :=
  match path with
  | String "c" (String "/" (String x _)) => PyStr.is_word x
  | _ => false
  end.

(** What [_parse_input_string] makes of the captured segment. *)
Definition of_segment (get_channel_id : Z -> Z) (seg : string) : parsed :=
  match PyStr.py_int seg with
  | Ok n => PInt (get_channel_id n)
  | Raise _ => PStr seg
  end.

(** ** Traces *)

Definition is_request (ev : event) : bool :=
  match ev with
  | EvInvoke _ => true
  | _ => false
  end.

(** The requests sent to the server, in order. *)
Definition requests (t : list event) : list event :=
  List.filter is_request t.

Definition is_storage_event (ev : event) : bool :=
  match ev with
  | EvGetPeerByUsername _ | EvGetPeerById _ | EvExecute _ _ | EvFetchone => true
  | _ => false
  end.

(** The request [_resolve_by_id] sends for an identifier of type [t]. *)
Definition by_id_request {Obj Row} (utils : Utils Obj Row)
           (t : string) (n : Z) : request :=
  if String.eqb t "user" then users_request n
  else if String.eqb t "chat" then chats_request n
  else channels_request utils n.

(** The answer to it that holds the objects [l]: a vector of users, or
    an object with the attribute [chats]. *)
Definition by_id_answer {Obj} (t : string) (l : list Obj) : response Obj :=
  if String.eqb t "user" then Vector l else Chats l.

(** ** Normal forms of strings *)

(** [str.lower] leaves the text as it is. *)
Definition is_lowered (s : string) : bool :=
  PyStr.forallb (fun c => Ascii.eqb (PyStr.lower_char c) c) s.

(** No "@", no "+", no blank. *)
Definition undecorated (s : string) : bool :=
  PyStr.forallb (fun c => negb (Parse.decoration c)) s.

(** The number a run of decimal digits writes. *)
Fixpoint decimal_from (acc : Z) (s : string) : Z :=
  match s with
  | EmptyString => acc
  | String c s' => decimal_from (10 * acc + PyStr.digit_value c)%Z s'
  end.

Definition decimal_value (s : string) : Z := decimal_from 0 s.

(** Some character is neither a decimal digit nor an underscore. *)
Fixpoint has_letter (s : string) : bool :=
  match s with
  | EmptyString => false
  | String c s' =>
      (negb (PyStr.is_decimal c) && negb (PyStr.between 95 95 c))
      || has_letter s'
  end.

(** The pattern has a capturing group. *)
Fixpoint has_group (r : Re.regex) : bool :=
  match r with
  | Re.Lit _ => false
  | Re.Seq a b => has_group a || has_group b
  | Re.Alt a b => has_group a || has_group b
  | Re.Opt a => has_group a
  | Re.Plus _ => false
  | Re.Group _ => true
  end.

(* ===================================================================== *)
(** * A concrete environment *)

(** [pyrogram.utils] of Pyrogram 2.0: the numeric helpers. *)
Module Pyrogram.
Local Open Scope Z_scope.

Definition MIN_CHANNEL_ID : Z := -1002147483647.
Definition MAX_CHANNEL_ID : Z := -1000000000000.
Definition MIN_CHAT_ID : Z := -2147483647.
Definition MAX_USER_ID : Z := 999999999999.

Definition get_peer_type (peer_id : Z) : outcome string :=
  if peer_id <? 0 then
    if MIN_CHAT_ID <=? peer_id then Ok "chat"%string
    else if (MIN_CHANNEL_ID <=? peer_id) && (peer_id <? MAX_CHANNEL_ID)
         then Ok "channel"%string
         else Raise (Exc ValueError "Peer id invalid")
  else if (0 <? peer_id) && (peer_id <=? MAX_USER_ID) then Ok "user"%string
  else Raise (Exc ValueError "Peer id invalid").

Definition get_channel_id (peer_id : Z) : Z := MAX_CHANNEL_ID - peer_id.
End Pyrogram.

(** A small world to run the resolver in: the server's objects and the
    rows of the cache are input peers already. *)
Module Sample.

Definition utils : Utils InputPeer InputPeer :=
  {| get_channel_id := Pyrogram.get_channel_id;
     get_peer_type := Pyrogram.get_peer_type;
     get_input_peer := fun o => Ok o;
     parse_peer_row := fun r => Ok r |}.

(** The state counts the calls made so far. *)
Definition answer {A} (o : outcome A) (st : nat) : outcome A * nat :=
  (o, S st).

(** A connected client with an empty cache; the server knows the
    username "durov" as a basic group, which is neither a user nor a
    channel. *)
Definition client : Client nat InputPeer unit InputPeer :=
  {| is_connected := fun _ => true;
     storage_get_peer_by_username :=
       fun u => answer (Raise (Exc KeyError "Username not found"));
     storage_get_peer_by_id :=
       fun n => answer (Raise (Exc KeyError "ID not found"));
     storage_conn_execute :=
       fun _ _ => answer (Raise (Exc OperationalError "no such table: peers"));
     cursor_fetchone := fun _ => answer (Ok None);
     invoke :=
       fun q =>
         answer
           match q with
           | ResolveUsername _ => Ok (ResolvedPeer (PeerChat 42))
           | GetUsers _ => Ok (Vector [InputPeerUser 7 99])
           | GetChats _ => Ok (Chats [InputPeerChat 8])
           | GetChannels _ => Ok (Chats [InputPeerChannel 9 77])
           end |}.

(** The same, with a storage that has no [get_peer_by_username] and one
    row in its table, and a server that knows the username as a
    channel. *)
Definition sqlite_client : Client nat InputPeer unit InputPeer :=
  {| is_connected := fun _ => true;
     storage_get_peer_by_username :=
       fun u =>
         answer (Raise (Exc AttributeError "no get_peer_by_username"));
     storage_get_peer_by_id := storage_get_peer_by_id client;
     storage_conn_execute := fun _ _ => answer (Ok tt);
     cursor_fetchone := fun _ => answer (Ok (Some (InputPeerUser 7 99)));
     invoke :=
       fun q =>
         match q with
         | ResolveUsername _ =>
             answer (Ok (ResolvedPeer (PeerChannel 1234567890)))
         | _ => invoke client q
         end |}.

Definition offline : Client nat InputPeer unit InputPeer :=
  {| is_connected := fun _ => false;
     storage_get_peer_by_username := storage_get_peer_by_username client;
     storage_get_peer_by_id := storage_get_peer_by_id client;
     storage_conn_execute := storage_conn_execute client;
     cursor_fetchone := cursor_fetchone client;
     invoke := invoke client |}.

End Sample.

(** Other clients of the same world. *)
Module Worlds.
Import Sample.

(** The storage has no [get_peer_by_username]; its table is empty. *)
Definition empty_table : Client nat InputPeer unit InputPeer :=
  {| is_connected := fun _ => true;
     storage_get_peer_by_username := storage_get_peer_by_username sqlite_client;
     storage_get_peer_by_id := storage_get_peer_by_id client;
     storage_conn_execute := fun _ _ => answer (Ok tt);
     cursor_fetchone := fun _ => answer (Ok None);
     invoke := invoke sqlite_client |}.

(** The database file is damaged: every storage call fails with an error
    that is not a cache miss. *)
Definition damaged : Client nat InputPeer unit InputPeer :=
  {| is_connected := fun _ => true;
     storage_get_peer_by_username :=
       fun _ => answer (Raise (Exc (OtherException "sqlite3.DatabaseError")
                                   "database disk image is malformed"));
     storage_get_peer_by_id :=
       fun _ => answer (Raise (Exc (OtherException "sqlite3.DatabaseError")
                                   "database disk image is malformed"));
     storage_conn_execute := storage_conn_execute client;
     cursor_fetchone := cursor_fetchone client;
     invoke := invoke client |}.


End Worlds.

(* ===================================================================== *)
(** * The monad: how traces and results compose *)

Section MonadFacts.
Context {State : Type}.

Lemma after_nil {A} (r : result State A) : after [] r = r.
Proof. destruct r; reflexivity. Qed.

Lemma after_after {A} (t u : list event) (r : result State A) :
  after t (after u r) = after (t ++ u) r.
Proof. unfold after; simpl. now rewrite app_assoc. Qed.

Lemma bind_ok {A B} (m : M State A) (k : A -> M State B) st a st1 t1 :
  m st = {| res := Ok a; final := st1; trace := t1 |} ->
  bind State m k st = after t1 (k a st1).
Proof. intros H. unfold bind. now rewrite H. Qed.

Lemma bind_raise {A B} (m : M State A) (k : A -> M State B) st e st1 t1 :
  m st = {| res := Raise e; final := st1; trace := t1 |} ->
  bind State m k st = {| res := Raise e; final := st1; trace := t1 |}.
Proof. intros H. unfold bind. now rewrite H. Qed.

Lemma try_caught {A} (m : M State A) catches h st e st1 t1 :
  m st = {| res := Raise e; final := st1; trace := t1 |} ->
  catches e = true ->
  try_except State m catches h st = after t1 (h e st1).
Proof. intros H C. unfold try_except. rewrite H; simpl. now rewrite C. Qed.

Lemma starts_call {A} ev (f : State -> outcome A * State) :
  starts_with ev (call State ev f).
Proof. intros st. unfold call. destruct (f st). now exists []. Qed.

Lemma starts_bind {A B} ev (m : M State A) (k : A -> M State B) :
  starts_with ev m -> starts_with ev (bind State m k).
Proof.
  intros H st. destruct (H st) as [rest E]. unfold bind.
  destruct (res (m st)); simpl; rewrite E; simpl; eauto.
Qed.

Lemma starts_try {A} ev (m : M State A) catches h :
  starts_with ev m -> starts_with ev (try_except State m catches h).
Proof.
  intros H st. destruct (H st) as [rest E]. unfold try_except.
  destruct (res (m st)); [eauto|].
  destruct (catches e); [|eauto].
  simpl. rewrite E. simpl. eauto.
Qed.
End MonadFacts.

(* ===================================================================== *)
(** * The resolver: order of the tiers and errors *)

Section ResolverFacts.
Context {State Obj Cursor Row : Type}.
Variable utils : Utils Obj Row.
Variable client : Client State Obj Cursor Row.

(** Past the connection test and the shortcut, [resolve] is the cache
    block followed by the network statements. *)
Lemma resolve_unfold k use_cache st :
  is_connected client st = true ->
  is_self (Some k) = false ->
  resolve utils client (Some k) use_cache st =
  bind State (cache_tier utils client k use_cache)
       (fun hit => match hit with
                   | Some p => ret State p
                   | None => network_tier utils client k
                   end) st.
Proof. intros C S. unfold resolve. now rewrite C, S. Qed.

(** A caught error in the cache lookup: the block logs it and falls
    through. *)
Lemma cache_tier_miss k st e st1 t1 :
  cache_lookup utils client k st =
    {| res := Raise e; final := st1; trace := t1 |} ->
  is_cache_miss e = true ->
  cache_tier utils client k true st =
    {| res := Ok None; final := st1;
       trace := t1 ++ [EvLogDebug "Cache miss" e] |}.
Proof.
  intros L Hm. unfold cache_tier.
  erewrite try_caught; [ | apply bind_raise; exact L | exact Hm ].
  reflexivity.
Qed.

Lemma cache_tier_off k st :
  cache_tier utils client k false st =
    {| res := Ok None; final := st; trace := [] |}.
Proof. reflexivity. Qed.

(** When the cache block falls through, [resolve] is the network
    statements run from where the block left off. *)
Lemma resolve_falls_through k use_cache st st1 t1 :
  is_connected client st = true ->
  is_self (Some k) = false ->
  cache_tier utils client k use_cache st =
    {| res := Ok None; final := st1; trace := t1 |} ->
  resolve utils client (Some k) use_cache st =
    after t1 (network_tier utils client k st1).
Proof.
  intros C S T. rewrite resolve_unfold by assumption.
  now rewrite (bind_ok _ _ _ _ _ _ T).
Qed.

Lemma cache_lookup_starts k :
  starts_with (cache_key_event k) (cache_lookup utils client k).
Proof.
  destruct k as [n|s]; simpl.
  - apply starts_call.
  - unfold _resolve_cached_username. apply starts_try, starts_call.
Qed.

(** The username tier on an answer that is neither a user nor a
    channel. *)
Lemma username_api_invalid username st r st1 :
  invoke client (ResolveUsername username) st = (Ok r, st1) ->
  is_user_or_channel (attr_peer r) = false ->
  _resolve_username_api utils client username st =
    {| res := Raise (Exc PeerIdInvalid "Invalid peer type in API response");
       final := st1;
       trace := [EvInvoke (ResolveUsername username)] |}.
Proof.
  intros I N. unfold _resolve_username_api, bind, call. rewrite I. simpl.
  destruct (attr_peer r) as [[u|c|c]|]; simpl in N; try discriminate;
    reflexivity.
Qed.

(** The network statements on a string that stays a string. *)
Lemma network_tier_username s username st :
  _parse_input_string utils s = Ok (PStr username) ->
  network_tier utils client (KStr s) st =
    _resolve_username_api utils client username st.
Proof.
  intros P. unfold network_tier, bind, lift. rewrite P. simpl.
  now rewrite after_nil.
Qed.

(** ** Claims *)

(** C8. On a client that is not connected, [resolve] raises
    ConnectionError whatever the identifier and the cache flag are, and
    it has made no call by then: no cache lookup, no query, no request,
    and the client's state is untouched. *)
Theorem resolve_not_connected peer_id use_cache st :
  is_connected client st = false ->
  resolve utils client peer_id use_cache st =
    {| res := Raise (Exc ConnectionError "Client not connected");
       final := st; trace := [] |}.
Proof. intros C. unfold resolve. rewrite C. reflexivity. Qed.

(** C7. On a connected client, for the identifiers None, "self" and
    "me", [resolve] returns InputPeerSelf without any cache lookup or
    network call, with the cache flag set or not. *)
Theorem resolve_self_shortcut peer_id use_cache st :
  is_connected client st = true ->
  In peer_id [None; Some (KStr "self"); Some (KStr "me")] ->
  resolve utils client peer_id use_cache st =
    {| res := Ok InputPeerSelf; final := st; trace := [] |}.
Proof.
  intros C I. unfold resolve. rewrite C. simpl.
  destruct I as [<-|[<-|[<-|[]]]]; reflexivity.
Qed.

(** C9. On a connected client with the cache in use, for an identifier
    other than None, "self" and "me", the first call [resolve] makes is
    the cache lookup, keyed by the identifier as it was given; so every
    request sent to the server comes after that lookup. *)
Theorem resolve_cache_first k st :
  is_connected client st = true ->
  is_self (Some k) = false ->
  (exists rest,
      trace (resolve utils client (Some k) true st)
      = cache_key_event k :: rest)
  /\ (forall before q later,
        trace (resolve utils client (Some k) true st)
        = (before ++ EvInvoke q :: later)%list ->
        In (cache_key_event k) before).
Proof.
  intros C S.
  assert (F : exists rest,
             trace (resolve utils client (Some k) true st)
             = cache_key_event k :: rest).
  { rewrite resolve_unfold by assumption.
    apply starts_bind. unfold cache_tier.
    apply starts_try, starts_bind, cache_lookup_starts. }
  split; [exact F|].
  destruct F as [rest E]. intros before q later T. rewrite E in T.
  destruct before as [|b before]; simpl in T.
  - destruct k; discriminate.
  - injection T as <- _. now left.
Qed.

(** C4. On a connected client with the cache in use, when the cache
    lookup raises KeyError, AttributeError or sqlite3.OperationalError,
    [resolve] logs the miss and goes on with the remaining tiers: its
    result is theirs, so the miss never reaches the caller. *)
Theorem resolve_cache_miss_recovered k st e st1 t1 :
  is_connected client st = true ->
  is_self (Some k) = false ->
  cache_lookup utils client k st =
    {| res := Raise e; final := st1; trace := t1 |} ->
  In (exn_cls e) [KeyError; AttributeError; OperationalError] ->
  resolve utils client (Some k) true st =
    after (t1 ++ [EvLogDebug "Cache miss" e])
          (network_tier utils client k st1).
Proof.
  intros C S L I.
  apply resolve_falls_through; auto.
  apply cache_tier_miss; auto.
  unfold is_cache_miss. destruct I as [<-|[<-|[<-|[]]]]; reflexivity.
Qed.

(** C3. When the answer to ResolveUsername carries a peer that is
    neither a PeerUser nor a PeerChannel, [_resolve_username_api] raises
    PeerIdInvalid, and [resolve], once the cache is off or has missed,
    ends with that very error: nothing handles it. *)
Theorem resolve_invalid_peer_surfaces s username use_cache st st1 t1 r st2 :
  is_connected client st = true ->
  is_self (Some (KStr s)) = false ->
  cache_tier utils client (KStr s) use_cache st =
    {| res := Ok None; final := st1; trace := t1 |} ->
  _parse_input_string utils s = Ok (PStr username) ->
  invoke client (ResolveUsername username) st1 = (Ok r, st2) ->
  is_user_or_channel (attr_peer r) = false ->
  res (_resolve_username_api utils client username st1)
    = Raise (Exc PeerIdInvalid "Invalid peer type in API response")
  /\ resolve utils client (Some (KStr s)) use_cache st =
       {| res := Raise (Exc PeerIdInvalid "Invalid peer type in API response");
          final := st2;
          trace := t1 ++ [EvInvoke (ResolveUsername username)] |}.
Proof.
  intros C S T P I N.
  pose proof (username_api_invalid username st1 r st2 I N) as U.
  split; [now rewrite U|].
  rewrite (resolve_falls_through _ _ _ _ _ C S T).
  rewrite (network_tier_username _ _ _ P), U. reflexivity.
Qed.

(** C2 (amended). A cache miss - KeyError, AttributeError or
    sqlite3.OperationalError out of the cache lookup - is logged and
    superseded by the network tier.  An error of the network tier by
    username, the invalid peer type among them, is not: it is what
    [resolve] raises, with nothing logged and no further tier tried. *)
Theorem resolve_supersedes_cache_miss_only k use_cache st :
  is_connected client st = true ->
  is_self (Some k) = false ->
  (forall e st1 t1,
      cache_lookup utils client k st =
        {| res := Raise e; final := st1; trace := t1 |} ->
      is_cache_miss e = true ->
      resolve utils client (Some k) true st =
        after (t1 ++ [EvLogDebug "Cache miss" e])
              (network_tier utils client k st1))
  /\ (forall s st1 t1 username e st2 t2,
        k = KStr s ->
        cache_tier utils client k use_cache st =
          {| res := Ok None; final := st1; trace := t1 |} ->
        _parse_input_string utils s = Ok (PStr username) ->
        _resolve_username_api utils client username st1 =
          {| res := Raise e; final := st2; trace := t2 |} ->
        resolve utils client (Some k) use_cache st =
          {| res := Raise e; final := st2; trace := t1 ++ t2 |}).
Proof.
  intros C S. split.
  - intros e st1 t1 L Hm.
    apply resolve_falls_through; auto. now apply cache_tier_miss.
  - intros s st1 t1 username e st2 t2 -> T P U.
    rewrite (resolve_falls_through _ _ _ _ _ C S T).
    rewrite (network_tier_username _ _ _ P), U. reflexivity.
Qed.

End ResolverFacts.

(* ===================================================================== *)
(** * The resolver: what goes to the server and what comes back *)

Section RequestFacts.
Context {State Obj Cursor Row : Type}.
Variable utils : Utils Obj Row.
Variable client : Client State Obj Cursor Row.

(** Everything after the request is a pure reading of the answer: the
    trace of a branch of [_resolve_by_id] is its one request. *)
Lemma by_id_branch_trace q (k : response Obj -> M State InputPeer) st :
  (forall r st', trace (k r st') = []) ->
  trace (bind State (call State (EvInvoke q) (invoke client q)) k st)
  = [EvInvoke q].
Proof.
  intros K. unfold bind, call.
  destruct (invoke client q st) as [[r|e] st']; simpl; [|reflexivity].
  now rewrite K.
Qed.

Lemma read_users_trace (r : response Obj) (st : State) :
  trace ((bind State (lift State (item0 Obj r))
               (fun u => lift State (get_input_peer utils u))) st) = [].
Proof.
  unfold bind, lift; simpl. destruct (item0 Obj r); reflexivity.
Qed.

Lemma read_chats_trace (r : response Obj) (st : State) :
  trace ((bind State (lift State (attr_chats Obj r))
               (fun l => bind State (lift State (head_item Obj l))
                    (fun c => lift State (get_input_peer utils c)))) st)
  = [].
Proof.
  unfold bind, lift; simpl.
  destruct (attr_chats Obj r) as [l|e]; simpl; [|reflexivity].
  destruct (head_item Obj l); reflexivity.
Qed.

(** [_resolve_by_id] sends at most one request, chosen by the type of
    the identifier. *)
Lemma by_id_trace n st :
  trace (_resolve_by_id utils client n st) =
  match get_peer_type utils n with
  | Raise _ => []
  | Ok t =>
      if String.eqb t "user" then [EvInvoke (users_request n)]
      else if String.eqb t "chat" then [EvInvoke (chats_request n)]
      else [EvInvoke (channels_request utils n)]
  end.
Proof.
  unfold _resolve_by_id. unfold bind at 1. unfold lift at 1. simpl.
  destruct (get_peer_type utils n) as [t|e]; simpl; [|reflexivity].
  destruct (String.eqb t "user"); [|destruct (String.eqb t "chat")].
  - apply by_id_branch_trace. intros; apply read_users_trace.
  - apply by_id_branch_trace. intros; apply read_chats_trace.
  - apply by_id_branch_trace. intros; apply read_chats_trace.
Qed.

(** C6. For a numeric identifier in the channel range - one that
    [utils.get_peer_type] classes as "channel" - [_resolve_by_id] takes
    the channel branch: the one request it sends is
    channels.GetChannels; users.GetUsers and messages.GetChats are not
    sent. *)
Theorem resolve_by_id_channel_branch n st :
  get_peer_type utils n = Ok "channel" ->
  trace (_resolve_by_id utils client n st) =
    [EvInvoke (GetChannels [{| ic_channel_id := get_channel_id utils n;
                               ic_access_hash := 0 |}])].
Proof. intros T. rewrite by_id_trace, T. reflexivity. Qed.

(** C10. The input peers the resolver builds on the network path have
    access_hash 0: those in the requests of [_resolve_by_id]
    (GetUsers, GetChannels; GetChats carries bare ids), and the
    InputPeerUser or InputPeerChannel [_resolve_username_api]
    returns. *)
Theorem network_access_hash_zero :
  (forall n st,
      List.forallb (fun ev => all_zero (event_access_hashes ev))
                   (trace (_resolve_by_id utils client n st)) = true)
  /\ (forall username st,
        match res (_resolve_username_api utils client username st) with
        | Ok p => built_access_hash p = Some 0%Z
        | Raise _ => True
        end).
Proof.
  split.
  - intros n st. rewrite by_id_trace.
    destruct (get_peer_type utils n) as [t|e]; [|reflexivity].
    destruct (String.eqb t "user"); [reflexivity|].
    destruct (String.eqb t "chat"); reflexivity.
  - intros username st. unfold _resolve_username_api, bind, call.
    destruct (invoke client (ResolveUsername username) st) as [[r|e] st'];
      simpl; [|exact I].
    destruct (attr_peer r) as [[u|c|c]|]; simpl; auto.
Qed.

End RequestFacts.

(* ===================================================================== *)
(** * The claims at work in the sample world *)

Lemma resolve_not_connected_witness :
  is_connected Sample.offline 0%nat = false
  /\ resolve Sample.utils Sample.offline (Some (KStr "durov")) true 0%nat =
       {| res := Raise (Exc ConnectionError "Client not connected");
          final := 0%nat; trace := [] |}.
Proof.
  split; [reflexivity|].
  apply (resolve_not_connected Sample.utils Sample.offline). reflexivity.
Defined.

Lemma resolve_self_shortcut_witness :
  resolve Sample.utils Sample.client (Some (KStr "me")) true 0%nat =
    {| res := Ok InputPeerSelf; final := 0%nat; trace := [] |}.
Proof.
  apply (resolve_self_shortcut Sample.utils Sample.client).
  - reflexivity.
  - simpl. auto.
Defined.

Lemma resolve_cache_first_witness :
  exists rest,
    trace (resolve Sample.utils Sample.client (Some (KStr "@Durov")) true 0%nat)
    = EvGetPeerByUsername "@Durov" :: rest.
Proof.
  apply (resolve_cache_first Sample.utils Sample.client (KStr "@Durov") 0%nat);
    reflexivity.
Defined.

Lemma resolve_cache_miss_recovered_witness :
  resolve Sample.utils Sample.client (Some (KInt 5)) true 0%nat =
    after ([EvGetPeerById 5]
             ++ [EvLogDebug "Cache miss" (Exc KeyError "ID not found")])
          (network_tier Sample.utils Sample.client (KInt 5) 1%nat).
Proof.
  apply (resolve_cache_miss_recovered Sample.utils Sample.client (KInt 5) 0%nat).
  - reflexivity.
  - reflexivity.
  - reflexivity.
  - simpl. auto.
Defined.

Lemma resolve_invalid_peer_surfaces_witness :
  resolve Sample.utils Sample.client (Some (KStr "@Durov")) false 0%nat =
    {| res := Raise (Exc PeerIdInvalid "Invalid peer type in API response");
       final := 1%nat;
       trace := [] ++ [EvInvoke (ResolveUsername "durov")] |}.
Proof.
  apply (resolve_invalid_peer_surfaces Sample.utils Sample.client
           "@Durov" "durov" false 0%nat 0%nat []
           (ResolvedPeer (PeerChat 42)) 1%nat);
    reflexivity.
Defined.

(** C2, as stated, fails: the server answers "durov" with a basic group;
    [_resolve_username_api] raises PeerIdInvalid, and [resolve] ends with
    that error.  It is not logged, and the request that failed is the
    last thing that happened: no other tier took over. *)
Lemma invalid_peer_not_superseded :
  let e := Exc PeerIdInvalid "Invalid peer type in API response" in
  let r := resolve Sample.utils Sample.client (Some (KStr "durov")) true 0%nat in
  res (_resolve_username_api Sample.utils Sample.client "durov" 1%nat) = Raise e
  /\ res r = Raise e
  /\ (forall msg, ~ In (EvLogDebug msg e) (trace r))
  /\ trace r = [EvGetPeerByUsername "durov";
                EvLogDebug "Cache miss" (Exc KeyError "Username not found");
                EvInvoke (ResolveUsername "durov")].
Proof.
  cbv zeta. repeat split.
  intros msg H. vm_compute in H.
  destruct H as [H|[H|[H|[]]]]; discriminate.
Qed.

Lemma resolve_supersedes_cache_miss_only_witness :
  resolve Sample.utils Sample.client (Some (KStr "durov")) true 0%nat =
    {| res := Raise (Exc PeerIdInvalid "Invalid peer type in API response");
       final := 2%nat;
       trace := [EvGetPeerByUsername "durov";
                 EvLogDebug "Cache miss" (Exc KeyError "Username not found")]
                ++ [EvInvoke (ResolveUsername "durov")] |}.
Proof.
  apply (proj2 (resolve_supersedes_cache_miss_only Sample.utils Sample.client
                  (KStr "durov") true 0%nat eq_refl eq_refl)
           "durov" 1%nat _ "durov"); reflexivity.
Defined.

(** Pyrogram's channel range. *)
Lemma pyrogram_channel_range (n : Z) :
  (Pyrogram.MIN_CHANNEL_ID <= n < Pyrogram.MAX_CHANNEL_ID)%Z ->
  Pyrogram.get_peer_type n = Ok "channel".
Proof.
  unfold Pyrogram.get_peer_type, Pyrogram.MIN_CHANNEL_ID,
    Pyrogram.MAX_CHANNEL_ID, Pyrogram.MIN_CHAT_ID.
  intros [Lo Hi].
  destruct (Z.ltb_spec n 0); [|lia].
  destruct (Z.leb_spec (-2147483647) n); [lia|].
  destruct (Z.leb_spec (-1002147483647) n); [|lia].
  destruct (Z.ltb_spec n (-1000000000000)); [reflexivity|lia].
Qed.

Example cached_username_by_sql :
  resolve Sample.utils Sample.sqlite_client (Some (KStr "@Durov")) true 0%nat =
    {| res := Ok (InputPeerUser 7 99); final := 3%nat;
       trace := [EvGetPeerByUsername "@Durov";
                 EvExecute select_peer "@durov";
                 EvFetchone] |}.
Proof. reflexivity. Qed.

Example username_api_channel :
  _resolve_username_api Sample.utils Sample.sqlite_client "durov" 0%nat =
    {| res := Ok (InputPeerChannel (-1001234567890) 0); final := 1%nat;
       trace := [EvInvoke (ResolveUsername "durov")] |}.
Proof. reflexivity. Qed.

Lemma resolve_by_id_channel_branch_witness :
  get_peer_type Sample.utils (-1001234567890) = Ok "channel"
  /\ trace (_resolve_by_id Sample.utils Sample.client (-1001234567890) 0%nat) =
       [EvInvoke (GetChannels [{| ic_channel_id := 1234567890;
                                  ic_access_hash := 0 |}])].
Proof.
  split; [reflexivity|].
  apply (resolve_by_id_channel_branch Sample.utils Sample.client
           (-1001234567890) 0%nat).
  reflexivity.
Defined.

(* ===================================================================== *)
(** * Characters *)

Section CharFacts.
Import PyStr.

Ltac all_chars c :=
  destruct c as [[|] [|] [|] [|] [|] [|] [|] [|]].

Lemma lower_char_idem c : lower_char (lower_char c) = lower_char c.
Proof. all_chars c; reflexivity. Qed.

Lemma lower_char_slash c :
  Ascii.eqb (lower_char c) "/" = Ascii.eqb c "/".
Proof. all_chars c; reflexivity. Qed.

Lemma word_not_slash c : is_word c = true -> Ascii.eqb c "/" = false.
Proof. all_chars c; intros H; first [reflexivity | discriminate H]. Qed.

Lemma word_lower_kept c :
  is_word c = true -> Parse.decoration (lower_char c) = false.
Proof. all_chars c; intros H; first [reflexivity | discriminate H]. Qed.

Lemma bare_username_other a t :
  a <> "@"%char -> bare_username (String a t) = String a t.
Proof. all_chars a; intros H; first [reflexivity | now elim H]. Qed.
End CharFacts.

(* ===================================================================== *)
(** * Strings *)

Section StringFacts.
Import PyStr.

Lemma strip_prefix_some l : forall s r,
  strip_prefix l s = Some r -> s = l ++ r.
Proof.
  induction l as [|a l IH]; intros s r H; simpl in *.
  - now injection H as ->.
  - destruct s as [|b s]; [discriminate|].
    destruct (Ascii.eqb_spec a b) as [->|]; [|discriminate].
    now rewrite (IH _ _ H).
Qed.

Lemma forallb_app p s t :
  forallb p (s ++ t) = forallb p s && forallb p t.
Proof.
  induction s as [|c s IH]; simpl; [reflexivity|].
  now rewrite IH, andb_assoc.
Qed.

Lemma no_slash_lower s : no_slash (lower s) = no_slash s.
Proof.
  unfold no_slash. induction s as [|c s IH]; simpl; [reflexivity|].
  now rewrite lower_char_slash, IH.
Qed.

Lemma forallb_filter p q s :
  forallb p s = true -> forallb p (filter q s) = true.
Proof.
  induction s as [|c s IH]; simpl; [reflexivity|].
  intros H. apply andb_true_iff in H as [Hc Hs].
  destruct (q c); simpl; [rewrite Hc|]; auto.
Qed.

Lemma filter_idem q s : filter q (filter q s) = filter q s.
Proof.
  induction s as [|c s IH]; simpl; [reflexivity|].
  destruct (q c) eqn:E; simpl; [rewrite E, IH|]; auto.
Qed.

Lemma lower_filter_lower q s :
  lower (filter q (lower s)) = filter q (lower s).
Proof.
  induction s as [|c s IH]; simpl; [reflexivity|].
  destruct (q (lower_char c)); simpl; [rewrite lower_char_idem, IH|]; auto.
Qed.

Lemma word_no_slash s : forallb is_word s = true -> no_slash s = true.
Proof.
  unfold no_slash. induction s as [|c s IH]; simpl; [reflexivity|].
  intros H. apply andb_true_iff in H as [Hc Hs].
  now rewrite (word_not_slash _ Hc), IH.
Qed.

Lemma word_lower_undecorated s :
  forallb is_word s = true ->
  Re.sub_class_empty Parse.decoration (lower s) = lower s.
Proof.
  unfold Re.sub_class_empty. induction s as [|c s IH]; simpl; [reflexivity|].
  intros H. apply andb_true_iff in H as [Hc Hs].
  now rewrite (word_lower_kept _ Hc), IH.
Qed.

Lemma substring_prefix s t :
  substring 0 (String.length (s ++ t) - String.length t) (s ++ t) = s.
Proof.
  assert (L : forall u : string,
             String.length (u ++ t) = (String.length u + String.length t)%nat).
  { induction u as [|c u IH]; simpl; [reflexivity|]. now rewrite IH. }
  rewrite L. replace (String.length s + String.length t - String.length t)%nat
    with (String.length s) by lia.
  clear L. induction s as [|c s IH]; simpl.
  - destruct t; reflexivity.
  - now rewrite IH.
Qed.
End StringFacts.

(* ===================================================================== *)
(** * The matcher *)

Section MatcherFacts.
Import PyStr Re.

Lemma same_or_none {A} (x : option A) :
  match x with Some y => Some y | None => None end = x.
Proof. now destruct x. Qed.

(** A successful match splits the text into what was consumed and what
    the continuation accepted. *)
Lemma star_splits {R} p : forall s (k : string -> option R) x,
  star p s k = Some x -> exists pre rest, s = pre ++ rest /\ k rest = Some x.
Proof.
  induction s as [|c s IH]; intros k x H; simpl in H.
  - exists "", "". auto.
  - destruct (p c).
    + destruct (star p s k) eqn:E.
      * injection H as <-. destruct (IH _ _ E) as (pre & rest & -> & K).
        exists (String c pre), rest. auto.
      * exists "", (String c s). auto.
    + exists "", (String c s). auto.
Qed.

Lemma run_splits {R} r : forall s g (k : string -> option string -> option R) x,
  run r s g k = Some x ->
  exists pre rest g',
    s = pre ++ rest /\ k rest g' = Some x
    /\ (needs_slash r = true -> no_slash pre = false).
Proof.
  induction r as [l|a IHa b IHb|a IHa b IHb|a IHa|p|a IHa];
    intros s g k x H; simpl in H.
  - destruct (strip_prefix l s) as [rest|] eqn:E; [|discriminate].
    exists l, rest, g. repeat split; auto.
    + now apply strip_prefix_some.
    + simpl. now intros ->%negb_true_iff.
  - destruct (IHa _ _ _ _ H) as (p1 & r1 & g1 & -> & H1 & S1).
    destruct (IHb _ _ _ _ H1) as (p2 & r2 & g2 & -> & H2 & S2).
    exists (p1 ++ p2), r2, g2. repeat split; auto.
    + clear. induction p1 as [|c p1 IH]; simpl; [reflexivity|].
      now rewrite IH.
    + simpl. intros N. unfold no_slash in *. rewrite forallb_app.
      apply orb_true_iff in N as [N|N];
        [rewrite (S1 N)|rewrite (S2 N), andb_false_r]; reflexivity.
  - destruct (run a s g k) eqn:E.
    + injection H as <-.
      destruct (IHa _ _ _ _ E) as (p1 & r1 & g1 & -> & H1 & S1).
      exists p1, r1, g1. repeat split; auto.
      simpl. now intros [N _]%andb_true_iff; auto.
    + destruct (IHb _ _ _ _ H) as (p1 & r1 & g1 & -> & H1 & S1).
      exists p1, r1, g1. repeat split; auto.
      simpl. now intros [_ N]%andb_true_iff; auto.
  - destruct (run a s g k) eqn:E.
    + injection H as <-.
      destruct (IHa _ _ _ _ E) as (p1 & r1 & g1 & -> & H1 & _).
      exists p1, r1, g1. repeat split; auto; try discriminate.
    + exists "", s, g. repeat split; auto; try discriminate.
  - unfold plus in H. destruct s as [|c s]; [discriminate|].
    destruct (p c); [|discriminate].
    destruct (star_splits _ _ _ _ H) as (pre & rest & -> & K).
    exists (String c pre), rest, g. repeat split; auto; try discriminate.
  - destruct (IHa _ _ _ _ H) as (p1 & r1 & g1 & E & H1 & S1).
    exists p1, r1, (Some (substring 0 (String.length s - String.length r1) s)).
    repeat split; auto.
Qed.

(** The link pattern matches nothing without a "/". *)
Lemma link_needs_slash s :
  no_slash s = true -> re_match Parse.link_re s = None.
Proof.
  intros N. unfold re_match.
  destruct (run Parse.link_re s None _) as [m|] eqn:E; [|reflexivity].
  destruct (run_splits _ _ _ _ _ E) as (pre & rest & g & -> & _ & S).
  unfold no_slash in *. rewrite forallb_app, (S eq_refl) in N.
  discriminate.
Qed.

(** A greedy repetition takes the whole run when the continuation
    accepts what follows it. *)
Lemma star_whole_run {R} p seg rest (k : string -> option R) x :
  forallb p seg = true ->
  match rest with String c _ => p c = false | EmptyString => True end ->
  k rest = Some x ->
  star p (seg ++ rest) k = Some x.
Proof.
  intros W E K. induction seg as [|c seg IH]; simpl in *.
  - destruct rest as [|c rest]; [exact K|]. simpl. now rewrite E.
  - apply andb_true_iff in W as [Wc W]. rewrite Wc, (IH W). reflexivity.
Qed.

Lemma plus_whole_run {R} p seg rest (k : string -> option R) x :
  seg <> "" ->
  forallb p seg = true ->
  match rest with String c _ => p c = false | EmptyString => True end ->
  k rest = Some x ->
  plus p (seg ++ rest) k = Some x.
Proof.
  intros N W E K. destruct seg as [|c seg]; [congruence|].
  simpl in *. apply andb_true_iff in W as [Wc W]. rewrite Wc.
  now apply star_whole_run.
Qed.

Lemma word_ends_spec rest :
  word_ends rest = true ->
  match rest with String c _ => is_word c = false | EmptyString => True end.
Proof.
  destruct rest as [|c rest]; simpl; [trivial|]. now intros ->%negb_true_iff.
Qed.

(** The group [([\w]+)] on a run of word characters captures the run. *)
Lemma group_captures seg rest g :
  seg <> "" ->
  forallb is_word seg = true ->
  word_ends rest = true ->
  run (Group (Plus is_word)) (seg ++ rest) g
      (fun _ g' => Some {| group1 := g' |})
  = Some {| group1 := Some seg |}.
Proof.
  intros N W E. cbn [run].
  apply plus_whole_run;
    [exact N | exact W | now apply word_ends_spec | now rewrite substring_prefix].
Qed.

(** Without a ["c/x"] in front, the optional ["c/"] is not taken. *)
Lemma c_not_taken path g :
  c_prefixed path = false ->
  run (Seq (Opt (Lit "c/")) (Group (Plus is_word))) path g
      (fun _ g' => Some {| group1 := g' |})
  = run (Group (Plus is_word)) path g (fun _ g' => Some {| group1 := g' |}).
Proof.
  intros C. cbn [run].
  destruct (strip_prefix "c/" path) as [rest|] eqn:E; [|reflexivity].
  apply strip_prefix_some in E as ->.
  simpl in C. unfold plus at 1.
  destruct rest as [|x rest]; [reflexivity|].
  now rewrite C.
Qed.

(** Past the scheme and the host, the match is that of the rest of the
    pattern on the path. *)
Lemma link_re_on_path scheme host path :
  In scheme schemes -> In host hosts ->
  re_match Parse.link_re (scheme ++ host ++ path)
  = run (Seq (Opt (Lit "c/")) (Group (Plus is_word))) path None
        (fun _ g' => Some {| group1 := g' |}).
Proof.
  intros Hs Hh. unfold re_match.
  set (tail := Seq (Opt (Lit "c/")) (Group (Plus is_word))).
  assert (T : forall s (k : string -> option string -> option match_object),
             run Parse.link_re s None k =
             run (Seq (Opt (Seq (Lit "http") (Seq (Opt (Lit "s")) (Lit "://"))))
                      (Seq (Alt (Lit "t.me/")
                                (Seq (Lit "telegram.")
                                     (Seq (Alt (Lit "org")
                                               (Alt (Lit "me") (Lit "dog")))
                                          (Lit "/"))))
                           tail)) s None k) by reflexivity.
  rewrite T. clearbody tail.
  simpl in Hs, Hh.
  destruct Hs as [<-|[<-|[<-|[]]]];
    destruct Hh as [<-|[<-|[<-|[<-|[]]]]];
    cbn; rewrite ?same_or_none; reflexivity.
Qed.
End MatcherFacts.

(* ===================================================================== *)
(** * [_parse_input_string] *)

Section ParseFacts.
Import PyStr Re.
Variable get_channel_id : Z -> Z.

Lemma py_int_raises_ValueError t e :
  py_int t = Raise e -> is_ValueError e = true.
Proof.
  unfold py_int.
  destruct (match strip t with
            | String "+" b => (false, b)
            | String "-" b => (true, b)
            | _ => (false, strip t)
            end) as [neg body].
  destruct (digits body 0 true); [destruct (_ <=? _)%nat|];
    intros H; try discriminate; now injection H as <-.
Qed.

(** Once the pattern has matched with the segment [seg] in its group,
    the result is the channel id for a number and the segment itself
    otherwise. *)
Lemma parse_of_match s seg :
  re_match Parse.link_re (lower s) = Some {| group1 := Some seg |} ->
  Parse._parse_input_string get_channel_id s = Ok (of_segment get_channel_id seg).
Proof.
  intros H. unfold Parse._parse_input_string, of_segment. rewrite H. simpl.
  destruct (py_int seg) as [n|e] eqn:E; [reflexivity|].
  now rewrite (py_int_raises_ValueError _ _ E).
Qed.

(** Without a "/" there is no link: the decorations are removed from
    the lowercased text. *)
Lemma parse_no_slash s :
  no_slash s = true ->
  Parse._parse_input_string get_channel_id s
  = Ok (PStr (sub_class_empty Parse.decoration (lower s))).
Proof.
  intros N. unfold Parse._parse_input_string.
  rewrite link_needs_slash; [reflexivity|]. now rewrite no_slash_lower.
Qed.

(** On a text without "/", parsing again changes nothing. *)
Lemma parse_idempotent_no_slash s :
  no_slash s = true ->
  let u := sub_class_empty Parse.decoration (lower s) in
  Parse._parse_input_string get_channel_id s = Ok (PStr u)
  /\ Parse._parse_input_string get_channel_id u = Ok (PStr u).
Proof.
  intros N u. split; [now apply parse_no_slash|].
  rewrite parse_no_slash.
  - unfold u, sub_class_empty. now rewrite lower_filter_lower, filter_idem.
  - unfold u, sub_class_empty, no_slash. apply forallb_filter.
    fold (no_slash (lower s)). now rewrite no_slash_lower.
Qed.

Lemma username_no_slash s : is_username s = true -> no_slash s = true.
Proof.
  unfold is_username. destruct s as [|a t]; [reflexivity|].
  destruct (ascii_dec a "@") as [->|Ha].
  - simpl bare_username. intros W.
    pose proof (word_no_slash _ W) as H. unfold no_slash in *. exact H.
  - rewrite (bare_username_other _ _ Ha). apply word_no_slash.
Qed.

Lemma username_normal_form s :
  is_username s = true ->
  sub_class_empty Parse.decoration (lower s) = lower (bare_username s).
Proof.
  unfold is_username. destruct s as [|a t]; [reflexivity|].
  destruct (ascii_dec a "@") as [->|Ha].
  - simpl bare_username. intros W.
    rewrite <- (word_lower_undecorated _ W). reflexivity.
  - rewrite (bare_username_other _ _ Ha). apply word_lower_undecorated.
Qed.

(** ** Claims *)

(** C5. For a username - word characters, with or without a leading
    "@" - [_parse_input_string] returns the name without the "@", in
    lower case, and applied to that result it returns it unchanged. *)
Theorem parse_username_idempotent s :
  is_username s = true ->
  Parse._parse_input_string get_channel_id s = Ok (PStr (lower (bare_username s)))
  /\ Parse._parse_input_string get_channel_id (lower (bare_username s))
     = Ok (PStr (lower (bare_username s))).
Proof.
  intros U. rewrite <- (username_normal_form _ U).
  apply parse_idempotent_no_slash. now apply username_no_slash.
Qed.

(** C1 (amended). For a link - an optional "http://" or "https://", one
    of the hosts t.me, telegram.org, telegram.me, telegram.dog, then a
    path, all compared in lower case - the identifier extracted is made
    from the first segment of the path, or from the one after a leading
    "c/": the segment in lower case when it is not an integer literal,
    and [get_channel_id] of its value when it is. *)
Theorem parse_link_segment s scheme host path seg rest :
  In scheme schemes ->
  In host hosts ->
  lower s = scheme ++ host ++ path ->
  (path = seg ++ rest /\ c_prefixed path = false)
  \/ path = "c/" ++ seg ++ rest ->
  seg <> "" ->
  forallb is_word seg = true ->
  word_ends rest = true ->
  Parse._parse_input_string get_channel_id s = Ok (of_segment get_channel_id seg).
Proof.
  intros Hs Hh L P N W E. apply parse_of_match.
  rewrite L, (link_re_on_path _ _ _ Hs Hh).
  destruct P as [[-> C]| ->].
  - rewrite (c_not_taken _ _ C). now apply group_captures.
  - change (run (Seq (Opt (Lit "c/")) (Group (Plus is_word)))
                ("c/" ++ seg ++ rest) None
                (fun _ g' => Some {| group1 := g' |}))
      with (match run (Group (Plus is_word)) (seg ++ rest) None
                      (fun _ g' => Some {| group1 := g' |})
            with
            | Some x => Some x
            | None => run (Group (Plus is_word)) ("c/" ++ seg ++ rest) None
                          (fun _ g' => Some {| group1 := g' |})
            end).
    now rewrite group_captures.
Qed.

End ParseFacts.

Lemma parse_username_idempotent_witness :
  Parse._parse_input_string Pyrogram.get_channel_id "@Durov" = Ok (PStr "durov")
  /\ Parse._parse_input_string Pyrogram.get_channel_id "durov" = Ok (PStr "durov").
Proof.
  apply (parse_username_idempotent Pyrogram.get_channel_id "@Durov").
  reflexivity.
Defined.

(** C1, as stated, fails: the segment of "https://t.me/Durov" is "Durov"
    and the identifier extracted is "durov"; the segment of
    "https://t.me/c/1234567890" is turned into a number. *)
Lemma link_segment_not_returned_as_is :
  Parse._parse_input_string Pyrogram.get_channel_id "https://t.me/Durov"
    = Ok (PStr "durov")
  /\ Parse._parse_input_string Pyrogram.get_channel_id "https://t.me/Durov"
     <> Ok (PStr "Durov")
  /\ Parse._parse_input_string Pyrogram.get_channel_id "https://t.me/c/1234567890"
     = Ok (PInt (-1001234567890)).
Proof.
  split; [reflexivity|]. split; [|reflexivity].
  vm_compute. discriminate.
Qed.

Lemma parse_link_segment_witness :
  Parse._parse_input_string Pyrogram.get_channel_id "HTTPS://T.me/c/1234567890/55"
    = Ok (PInt (-1001234567890))
  /\ Parse._parse_input_string Pyrogram.get_channel_id "telegram.dog/Durov?start=1"
     = Ok (PStr "durov").
Proof.
  split.
  - apply (parse_link_segment Pyrogram.get_channel_id
             "HTTPS://T.me/c/1234567890/55" "https://" "t.me/"
             "c/1234567890/55" "1234567890" "/55").
    + simpl; auto.
    + simpl; auto.
    + reflexivity.
    + right; reflexivity.
    + discriminate.
    + reflexivity.
    + reflexivity.
  - apply (parse_link_segment Pyrogram.get_channel_id
             "telegram.dog/Durov?start=1" "" "telegram.dog/"
             "durov?start=1" "durov" "?start=1").
    + simpl; auto.
    + simpl; auto 6.
    + reflexivity.
    + left; split; reflexivity.
    + discriminate.
    + reflexivity.
    + reflexivity.
Defined.

(** Beyond usernames the second pass may find a link the first did not:
    the "@" in front hides it from the pattern. *)
Example parse_twice_link :
  Parse._parse_input_string Pyrogram.get_channel_id "@t.me/abc"
    = Ok (PStr "t.me/abc")
  /\ Parse._parse_input_string Pyrogram.get_channel_id "t.me/abc"
     = Ok (PStr "abc").
Proof. split; reflexivity. Qed.

(* ===================================================================== *)
(** * More on characters, [int] and the matcher *)

Section IntFacts.
Import PyStr.

Ltac every_char c :=
  destruct c as [[|] [|] [|] [|] [|] [|] [|] [|]].

Lemma word_not_decoration c :
  is_word c = true -> Parse.decoration c = false.
Proof. every_char c; intros H; first [reflexivity | discriminate H]. Qed.

Lemma word_not_space c : is_word c = true -> is_space c = false.
Proof. every_char c; intros H; first [reflexivity | discriminate H]. Qed.

Lemma decimal_is_word c : is_decimal c = true -> is_word c = true.
Proof. every_char c; intros H; first [reflexivity | discriminate H]. Qed.

Lemma lower_char_fixed c :
  Ascii.eqb (lower_char (lower_char c)) (lower_char c) = true.
Proof. rewrite lower_char_idem. apply Ascii.eqb_refl. Qed.

Lemma rstrip_word s : forallb is_word s = true -> rstrip s = s.
Proof.
  induction s as [|c s IH]; simpl; [reflexivity|].
  intros H. apply andb_true_iff in H as [Hc Hs].
  rewrite (IH Hs), (word_not_space _ Hc). now destruct s.
Qed.

Lemma strip_word s : forallb is_word s = true -> strip s = s.
Proof.
  intros H. unfold strip.
  destruct s as [|c s]; [reflexivity|].
  assert (L : lstrip (String c s) = String c s).
  { simpl in *. apply andb_true_iff in H as [Hc _].
    now rewrite (word_not_space _ Hc). }
  rewrite L. now apply rstrip_word.
Qed.

(** On a text of word characters [int] has no blank to skip and no sign
    to read. *)
Lemma py_int_word s :
  forallb is_word s = true ->
  py_int s =
  match digits s 0 true with
  | Some n =>
      if (String.length (filter is_decimal s) <=? max_str_digits)%nat
      then Ok n
      else Raise (Exc ValueError "Exceeds the limit for integer string conversion")
  | None => Raise (Exc ValueError "invalid literal for int() with base 10")
  end.
Proof.
  intros W. unfold py_int. rewrite (strip_word _ W).
  destruct s as [|c s]; [reflexivity|].
  simpl in W. apply andb_true_iff in W as [Wc _].
  every_char c; first [discriminate Wc | reflexivity].
Qed.

Lemma digits_decimal s : forall acc sep,
  forallb is_decimal s = true ->
  s <> "" \/ sep = false ->
  digits s acc sep = Some (decimal_from acc s).
Proof.
  induction s as [|c s IH]; intros acc sep D N; simpl in *.
  - destruct N as [N| ->]; [congruence|reflexivity].
  - apply andb_true_iff in D as [Dc Ds]. rewrite Dc. apply IH; auto.
Qed.

Lemma digits_letter s : forall acc sep,
  has_letter s = true -> digits s acc sep = None.
Proof.
  induction s as [|c s IH]; intros acc sep L; simpl in *; [discriminate|].
  destruct (is_decimal c); simpl in L; [now apply IH|].
  destruct (between 95 95 c); simpl in L; [|reflexivity].
  destruct sep; [reflexivity|now apply IH].
Qed.

Lemma filter_all p s : forallb p s = true -> filter p s = s.
Proof.
  induction s as [|c s IH]; simpl; [reflexivity|].
  intros H. apply andb_true_iff in H as [Hc Hs]. now rewrite Hc, IH.
Qed.

Lemma forallb_weaken (p q : ascii -> bool) s :
  (forall c, p c = true -> q c = true) ->
  forallb p s = true -> forallb q s = true.
Proof.
  intros I. induction s as [|c s IH]; simpl; [reflexivity|].
  intros H. apply andb_true_iff in H as [Hc Hs]. now rewrite (I _ Hc), IH.
Qed.

(** [int] on a run of decimal digits within the limit. *)
Lemma py_int_decimal s :
  s <> "" ->
  forallb is_decimal s = true ->
  (String.length s <= max_str_digits)%nat ->
  py_int s = Ok (decimal_value s).
Proof.
  intros N D L.
  rewrite py_int_word by (revert D; apply forallb_weaken, decimal_is_word).
  rewrite (digits_decimal _ _ _ D) by auto.
  rewrite (filter_all _ _ D).
  apply Nat.leb_le in L. now rewrite L.
Qed.

(** [int] on word characters of which one is no digit. *)
Lemma py_int_letter s :
  forallb is_word s = true ->
  has_letter s = true ->
  exists e, py_int s = Raise e /\ is_ValueError e = true.
Proof.
  intros W L. rewrite (py_int_word _ W), (digits_letter _ _ _ L).
  eexists. split; reflexivity.
Qed.

Lemma lower_is_lowered s : is_lowered (lower s) = true.
Proof.
  unfold is_lowered. induction s as [|c s IH]; simpl; [reflexivity|].
  now rewrite lower_char_fixed, IH.
Qed.

Lemma lowered_fixed s : is_lowered s = true -> lower s = s.
Proof.
  unfold is_lowered. induction s as [|c s IH]; simpl; [reflexivity|].
  intros H. apply andb_true_iff in H as [Hc Hs].
  apply Ascii.eqb_eq in Hc. now rewrite Hc, IH.
Qed.

Lemma filter_satisfies p s : forallb p (filter p s) = true.
Proof.
  induction s as [|c s IH]; simpl; [reflexivity|].
  destruct (p c) eqn:E; simpl; [rewrite E|]; auto.
Qed.
End IntFacts.

Section GroupFacts.
Import PyStr Re.

(** A pattern without a group leaves group 1 as it found it. *)
Lemma run_keeps_group {R} r :
  has_group r = false ->
  forall s g (k : string -> option string -> option R) x,
    run r s g k = Some x ->
    exists pre rest, s = pre ++ rest /\ k rest g = Some x.
Proof.
  induction r as [l|a IHa b IHb|a IHa b IHb|a IHa|p|a IHa];
    intros G s g k x H; simpl in *.
  - destruct (strip_prefix l s) as [rest|] eqn:E; [|discriminate].
    exists l, rest. split; [now apply strip_prefix_some|assumption].
  - apply orb_false_iff in G as [Ga Gb].
    destruct (IHa Ga _ _ _ _ H) as (p1 & r1 & -> & H1).
    destruct (IHb Gb _ _ _ _ H1) as (p2 & r2 & -> & H2).
    exists (p1 ++ p2), r2. split; [|assumption].
    clear. induction p1 as [|c p1 IH]; simpl; [reflexivity|]. now rewrite IH.
  - apply orb_false_iff in G as [Ga Gb].
    destruct (run a s g k) eqn:E.
    + injection H as <-. now apply (IHa Ga _ _ _ _ E).
    + now apply (IHb Gb _ _ _ _ H).
  - destruct (run a s g k) eqn:E.
    + injection H as <-. now apply (IHa G _ _ _ _ E).
    + exists "", s. auto.
  - unfold plus in H. destruct s as [|c s]; [discriminate|].
    destruct (p c); [|discriminate].
    destruct (star_splits _ _ _ _ H) as (pre & rest & -> & K).
    exists (String c pre), rest. auto.
  - discriminate.
Qed.

Lemma star_run {R} p : forall s (k : string -> option R) x,
  star p s k = Some x ->
  exists pre rest,
    s = pre ++ rest /\ forallb p pre = true /\ k rest = Some x.
Proof.
  induction s as [|c s IH]; intros k x H; simpl in H.
  - exists "", "". auto.
  - destruct (p c) eqn:Pc.
    + destruct (star p s k) eqn:E.
      * injection H as <-. destruct (IH _ _ E) as (pre & rest & -> & W & K).
        exists (String c pre), rest. simpl. rewrite Pc, W. auto.
      * exists "", (String c s). auto.
    + exists "", (String c s). auto.
Qed.

(** What the group [([\w]+)] hands on: a run of word characters, not
    empty, taken from the front of the text. *)
Lemma word_group_run {R} s g (k : string -> option string -> option R) x :
  run (Group (Plus is_word)) s g k = Some x ->
  exists seg rest,
    s = seg ++ rest /\ seg <> "" /\ forallb is_word seg = true
    /\ k rest (Some seg) = Some x.
Proof.
  cbn [run]. unfold plus. intros H.
  destruct s as [|c s]; [discriminate|].
  destruct (is_word c) eqn:Wc; [|discriminate].
  destruct (star_run _ _ _ _ H) as (pre & rest & E & W & K).
  exists (String c pre), rest. rewrite E in *.
  repeat split.
  - discriminate.
  - simpl. now rewrite Wc, W.
  - change (String c (pre ++ rest)) with (String c pre ++ rest) in K.
    now rewrite substring_prefix in K.
Qed.

Lemma run_seq {R} a b s g (k : string -> option string -> option R) :
  run (Seq a b) s g k = run a s g (fun rest g' => run b rest g' k).
Proof. reflexivity. Qed.

(** The shape of every match of the link pattern. *)
Lemma link_match_shape s m :
  re_match Parse.link_re s = Some m ->
  exists pre seg rest,
    s = pre ++ seg ++ rest /\ m = {| group1 := Some seg |}
    /\ seg <> "" /\ forallb is_word seg = true.
Proof.
  unfold re_match, Parse.link_re. intros H.
  rewrite run_seq in H.
  apply (run_keeps_group
           (Opt (Seq (Lit "http") (Seq (Opt (Lit "s")) (Lit "://"))))
           eq_refl) in H as (p1 & r1 & -> & H).
  rewrite run_seq in H.
  apply (run_keeps_group
           (Alt (Lit "t.me/")
                (Seq (Lit "telegram.")
                     (Seq (Alt (Lit "org") (Alt (Lit "me") (Lit "dog")))
                          (Lit "/"))))
           eq_refl) in H as (p2 & r2 & -> & H).
  rewrite run_seq in H.
  apply (run_keeps_group (Opt (Lit "c/")) eq_refl) in H as (p3 & r3 & -> & H).
  apply word_group_run in H as (seg & rest & -> & N & W & K).
  injection K as <-.
  exists (p1 ++ p2 ++ p3), seg, rest. repeat split; auto.
  clear. induction p1 as [|c p1 IH]; simpl; [|now rewrite IH].
  induction p2 as [|c p2 IH]; simpl; [|now rewrite IH]. reflexivity.
Qed.

(** A path that does not begin with a word character gives no match. *)
Lemma link_re_no_segment scheme host path :
  In scheme schemes -> In host hosts ->
  word_ends path = true ->
  re_match Parse.link_re (scheme ++ host ++ path) = None.
Proof.
  intros Hs Hh E. rewrite (link_re_on_path _ _ _ Hs Hh).
  destruct (run _ path None _) as [m|] eqn:R; [|reflexivity].
  cbn [run] in R.
  assert (P : forall t (k : string -> option match_object),
             word_ends t = true -> plus is_word t k = None).
  { intros [|c t] k Ht; simpl in *; [reflexivity|].
    apply negb_true_iff in Ht. now rewrite Ht. }
  rewrite (P path) in R by assumption.
  destruct (strip_prefix "c/" path) as [rest|] eqn:S; [|discriminate].
  apply strip_prefix_some in S as ->. discriminate E.
Qed.

(** The match on a link whose path begins with the segment [seg]. *)
Lemma link_match_segment scheme host path seg rest :
  In scheme schemes -> In host hosts ->
  (path = seg ++ rest /\ c_prefixed path = false)
  \/ path = "c/" ++ seg ++ rest ->
  seg <> "" ->
  forallb is_word seg = true ->
  word_ends rest = true ->
  re_match Parse.link_re (scheme ++ host ++ path)
  = Some {| group1 := Some seg |}.
Proof.
  intros Hs Hh P N W E. rewrite (link_re_on_path _ _ _ Hs Hh).
  destruct P as [[-> C]| ->].
  - rewrite (c_not_taken _ _ C). now apply group_captures.
  - cbn [run strip_prefix append Ascii.eqb Bool.eqb].
    fold (run (Group (Plus is_word)) (seg ++ rest) None
              (fun _ g' => Some {| group1 := g' |})).
    now rewrite group_captures.
Qed.
End GroupFacts.

(* ===================================================================== *)
(** * [_parse_input_string]: what comes out *)

Section ParseResults.
Import PyStr Re.
Variable get_channel_id : Z -> Z.

(** The two ways [_parse_input_string] ends: on a link, with what is made
    of the segment; otherwise with the text, lowered and stripped. *)
Lemma parse_cases s :
  (exists pre seg rest,
      lower s = pre ++ seg ++ rest /\ seg <> ""
      /\ forallb is_word seg = true
      /\ Parse._parse_input_string get_channel_id s
         = Ok (of_segment get_channel_id seg))
  \/ (re_match Parse.link_re (lower s) = None
      /\ Parse._parse_input_string get_channel_id s
         = Ok (PStr (sub_class_empty Parse.decoration (lower s)))).
Proof.
  destruct (re_match Parse.link_re (lower s)) as [m|] eqn:E.
  - left. destruct (link_match_shape _ _ E) as (pre & seg & rest & L & -> & N & W).
    exists pre, seg, rest. repeat split; auto.
    now apply parse_of_match.
  - right. split; [reflexivity|].
    unfold Parse._parse_input_string. now rewrite E.
Qed.

(** X1. The pattern always fills its group, so the conversion of the group to
    a number can fail with ValueError only: [_parse_input_string] raises
    nothing. *)
Theorem parse_never_raises s :
  exists p, Parse._parse_input_string get_channel_id s = Ok p.
Proof.
  destruct (parse_cases s) as [(pre & seg & rest & _ & _ & _ & P)|[_ P]];
    rewrite P; eauto.
Qed.

Lemma parse_result_shape s u :
  Parse._parse_input_string get_channel_id s = Ok (PStr u) ->
  is_lowered u = true /\ undecorated u = true.
Proof.
  intros H.
  destruct (parse_cases s) as [(pre & seg & rest & L & _ & W & P)|[_ P]];
    rewrite P in H.
  - unfold of_segment in H. destruct (py_int seg); [discriminate|].
    injection H as <-. split.
    + pose proof (lower_is_lowered s) as I. rewrite L in I.
      unfold is_lowered in *. rewrite !forallb_app in I.
      apply andb_true_iff in I as [_ I]. now apply andb_true_iff in I as [I _].
    + unfold undecorated. revert W. apply forallb_weaken.
      intros c Wc. now rewrite (word_not_decoration _ Wc).
  - injection H as <-. unfold sub_class_empty. split.
    + apply forallb_filter, lower_is_lowered.
    + apply filter_satisfies.
Qed.

(** X2. A string that comes out of [_parse_input_string] is in lower case
    and has no "@", no "+" and no blank in it. *)
Theorem parse_string_normalized s u :
  Parse._parse_input_string get_channel_id s = Ok (PStr u) ->
  lower u = u /\ undecorated u = true.
Proof.
  intros H. destruct (parse_result_shape s u H) as [L D].
  split; [now apply lowered_fixed|exact D].
Qed.

(** X3. Parsing a result again changes nothing, as long as the result has no
    "/" in it. *)
Theorem parse_twice_stable s u :
  Parse._parse_input_string get_channel_id s = Ok (PStr u) ->
  no_slash u = true ->
  Parse._parse_input_string get_channel_id u = Ok (PStr u).
Proof.
  intros H N. destruct (parse_result_shape s u H) as [L D].
  rewrite (parse_no_slash _ _ N), (lowered_fixed _ L).
  unfold sub_class_empty. now rewrite (filter_all _ _ D).
Qed.

(** X4. A number comes from a link only: a text without "/" - a string of
    digits, say - stays a string. *)
Theorem parse_number_needs_link s n :
  Parse._parse_input_string get_channel_id s = Ok (PInt n) ->
  no_slash s = false.
Proof.
  intros H. destruct (no_slash s) eqn:N; [|reflexivity].
  rewrite (parse_no_slash _ _ N) in H. discriminate.
Qed.

(** X5. A link whose path does not begin with a word character - an invite
    link "t.me/+hash", a bare "t.me/" - is not taken as a link: the text
    comes back whole, lowered and without its decorations, the host still
    in it. *)
Theorem parse_link_without_segment s scheme host path :
  In scheme schemes ->
  In host hosts ->
  lower s = scheme ++ host ++ path ->
  word_ends path = true ->
  Parse._parse_input_string get_channel_id s
  = Ok (PStr (sub_class_empty Parse.decoration (lower s))).
Proof.
  intros Hs Hh L E. unfold Parse._parse_input_string.
  rewrite L, (link_re_no_segment _ _ _ Hs Hh E). reflexivity.
Qed.

(** X6. A link whose segment is a run of decimal digits (not longer than the
    limit of [int]) gives [get_channel_id] of the number the digits
    write. *)
Theorem parse_numeric_segment s scheme host path seg rest :
  In scheme schemes ->
  In host hosts ->
  lower s = scheme ++ host ++ path ->
  (path = seg ++ rest /\ c_prefixed path = false)
  \/ path = "c/" ++ seg ++ rest ->
  seg <> "" ->
  forallb is_decimal seg = true ->
  (String.length seg <= max_str_digits)%nat ->
  word_ends rest = true ->
  Parse._parse_input_string get_channel_id s
  = Ok (PInt (get_channel_id (decimal_value seg))).
Proof.
  intros Hs Hh L P N D Len E.
  assert (W : forallb is_word seg = true)
    by (revert D; apply forallb_weaken, decimal_is_word).
  rewrite (parse_of_match _ s seg).
  - unfold of_segment. now rewrite (py_int_decimal _ N D Len).
  - rewrite L. now apply (link_match_segment _ _ _ _ rest).
Qed.

(** X7. A link whose segment has a character that is neither a digit nor an
    underscore - any name with a letter in it - gives the segment, as a
    string. *)
Theorem parse_named_segment s scheme host path seg rest :
  In scheme schemes ->
  In host hosts ->
  lower s = scheme ++ host ++ path ->
  (path = seg ++ rest /\ c_prefixed path = false)
  \/ path = "c/" ++ seg ++ rest ->
  forallb is_word seg = true ->
  has_letter seg = true ->
  word_ends rest = true ->
  Parse._parse_input_string get_channel_id s = Ok (PStr seg).
Proof.
  intros Hs Hh L P W Le E.
  assert (N : seg <> "") by (intros ->; discriminate Le).
  rewrite (parse_of_match _ s seg).
  - unfold of_segment.
    destruct (py_int_letter _ W Le) as (e & -> & _). reflexivity.
  - rewrite L. now apply (link_match_segment _ _ _ _ rest).
Qed.

End ParseResults.

(* ===================================================================== *)
(** * The tiers of [resolve], one by one *)

Section TierFacts.
Context {State Obj Cursor Row : Type}.
Variable utils : Utils Obj Row.
Variable client : Client State Obj Cursor Row.

Lemma trace_bind {A B} (m : M State A) (k : A -> M State B) st :
  trace (bind State m k st)
  = (trace (m st)
       ++ match res (m st) with
          | Ok a => trace (k a (final (m st)))
          | Raise _ => []
          end)%list.
Proof.
  unfold bind. destruct (res (m st)); simpl; [reflexivity|].
  now rewrite app_nil_r.
Qed.

Lemma trace_try {A} (m : M State A) catches h st :
  trace (try_except State m catches h st)
  = (trace (m st)
       ++ match res (m st) with
          | Ok _ => []
          | Raise e => if catches e then trace (h e (final (m st))) else []
          end)%list.
Proof.
  unfold try_except. destruct (res (m st)) as [a|e]; simpl.
  - now rewrite app_nil_r.
  - destruct (catches e); simpl; [reflexivity|now rewrite app_nil_r].
Qed.

Lemma requests_app t u : requests (t ++ u) = (requests t ++ requests u)%list.
Proof. apply filter_app. Qed.

Lemma storage_no_request t :
  List.forallb is_storage_event t = true -> requests t = [].
Proof.
  induction t as [|ev t IH]; simpl; [reflexivity|].
  intros H. apply andb_true_iff in H as [He Ht].
  destruct ev; simpl in *; try discriminate; auto.
Qed.

(** The username tier sends its one request, whatever comes of it. *)
Lemma username_api_trace username st :
  trace (_resolve_username_api utils client username st)
  = [EvInvoke (ResolveUsername username)].
Proof.
  unfold _resolve_username_api, bind, call.
  destruct (invoke client (ResolveUsername username) st) as [[r|e] st'];
    simpl; [|reflexivity].
  destruct (attr_peer r) as [[u|c|c]|]; reflexivity.
Qed.

(** The network statements send one request at most, and do nothing
    else. *)
Lemma network_tier_trace k st :
  trace (network_tier utils client k st) = []
  \/ exists q, trace (network_tier utils client k st) = [EvInvoke q].
Proof.
  assert (B : forall n st',
             trace (_resolve_by_id utils client n st') = []
             \/ exists q, trace (_resolve_by_id utils client n st')
                          = [EvInvoke q]).
  { intros n st'. rewrite by_id_trace.
    destruct (get_peer_type utils n) as [t|e]; [|now left].
    right. destruct (String.eqb t "user"); [eauto|].
    destruct (String.eqb t "chat"); eauto. }
  destruct k as [n|s]; simpl; [apply B|].
  rewrite trace_bind. simpl.
  destruct (_parse_input_string utils s) as [[n|u]|e]; simpl.
  - apply B.
  - right. rewrite username_api_trace. eauto.
  - now left.
Qed.

(** The cache lookup talks to the storage only. *)
Lemma cache_lookup_storage k st :
  List.forallb is_storage_event (trace (cache_lookup utils client k st)) = true.
Proof.
  destruct k as [n|s]; simpl.
  - unfold call. now destruct (storage_get_peer_by_id client n st).
  - unfold _resolve_cached_username, try_except, bind, call, lift, raise, after.
    destruct (storage_get_peer_by_username client s st) as [[p|e] st1];
      simpl; [reflexivity|].
    destruct (is_AttributeError e); [|reflexivity]. simpl.
    destruct (storage_conn_execute client select_peer (PyStr.lower s) st1)
      as [[cur|e1] st2]; simpl; [|reflexivity].
    destruct (cursor_fetchone client cur st2) as [[[r|]|e2] st3];
      simpl; try reflexivity.
    destruct (parse_peer_row utils r); reflexivity.
Qed.

(** The cache block sends nothing to the server. *)
Lemma cache_tier_no_request k use_cache st :
  requests (trace (cache_tier utils client k use_cache st)) = [].
Proof.
  unfold cache_tier. destruct use_cache; [|reflexivity].
  rewrite trace_try, trace_bind, !requests_app.
  rewrite (storage_no_request _ (cache_lookup_storage k st)). simpl.
  destruct (res (cache_lookup utils client k st)) as [p|e] eqn:E; simpl.
  - unfold bind. rewrite E. reflexivity.
  - unfold bind. rewrite E. simpl.
    destruct (is_cache_miss e); reflexivity.
Qed.

(** A cache hit: the block returns the peer that was found. *)
Lemma cache_tier_hit k st p st1 t1 :
  cache_lookup utils client k st =
    {| res := Ok p; final := st1; trace := t1 |} ->
  cache_tier utils client k true st =
    {| res := Ok (Some p); final := st1; trace := t1 |}.
Proof.
  intros L. unfold cache_tier, try_except, bind. rewrite L. simpl.
  unfold after. simpl. now rewrite app_nil_r.
Qed.

(** An error that is no cache miss leaves the block as it is. *)
Lemma cache_tier_error k st e st1 t1 :
  cache_lookup utils client k st =
    {| res := Raise e; final := st1; trace := t1 |} ->
  is_cache_miss e = false ->
  cache_tier utils client k true st =
    {| res := Raise e; final := st1; trace := t1 |}.
Proof.
  intros L Hm. unfold cache_tier, try_except, bind. rewrite L. simpl.
  now rewrite Hm.
Qed.

(** ** Cache *)

(** X8. On a cache hit [resolve] returns the peer found in the cache, and no
    request has gone to the server. *)
Theorem resolve_cache_hit k st p st1 t1 :
  is_connected client st = true ->
  is_self (Some k) = false ->
  cache_lookup utils client k st =
    {| res := Ok p; final := st1; trace := t1 |} ->
  resolve utils client (Some k) true st =
    {| res := Ok p; final := st1; trace := t1 |}
  /\ requests t1 = [].
Proof.
  intros C S L. split.
  - rewrite resolve_unfold by assumption.
    rewrite (bind_ok _ _ _ _ _ _ (cache_tier_hit _ _ _ _ _ L)).
    unfold after, ret. simpl. now rewrite app_nil_r.
  - pose proof (cache_lookup_storage k st) as F. rewrite L in F.
    now apply storage_no_request.
Qed.

(** X9. An error of the cache lookup outside the three classes caught -
    a damaged database, say - is what [resolve] raises: it is not
    logged, and the network is not tried. *)
Theorem resolve_cache_error_propagates k st e st1 t1 :
  is_connected client st = true ->
  is_self (Some k) = false ->
  cache_lookup utils client k st =
    {| res := Raise e; final := st1; trace := t1 |} ->
  ~ In (exn_cls e) [KeyError; AttributeError; OperationalError] ->
  resolve utils client (Some k) true st =
    {| res := Raise e; final := st1; trace := t1 |}
  /\ requests t1 = [].
Proof.
  intros C S L N. split.
  - rewrite resolve_unfold by assumption.
    apply bind_raise, cache_tier_error; [assumption|].
    unfold is_cache_miss. destruct (exn_cls e); try reflexivity;
      elim N; simpl; auto.
  - pose proof (cache_lookup_storage k st) as F. rewrite L in F.
    now apply storage_no_request.
Qed.

(** X10. With [use_cache] off, [resolve] never touches the storage: all it
    does is send one request, or none. *)
Theorem resolve_without_cache_skips_storage peer_id st :
  trace (resolve utils client peer_id false st) = []
  \/ exists q, trace (resolve utils client peer_id false st) = [EvInvoke q].
Proof.
  destruct (is_connected client st) eqn:C.
  - destruct peer_id as [k|]; [|left; unfold resolve; now rewrite C].
    destruct (is_self (Some k)) eqn:S.
    + left. unfold resolve. now rewrite C, S.
    + rewrite (resolve_falls_through _ _ _ _ _ _ _ C S (cache_tier_off _ _ k st)).
      simpl. apply network_tier_trace.
  - left. unfold resolve. now rewrite C.
Qed.

End TierFacts.

(* ===================================================================== *)
(** * [resolve] from end to end *)

Section EndToEnd.
Context {State Obj Cursor Row : Type}.
Variable utils : Utils Obj Row.
Variable client : Client State Obj Cursor Row.

(** The trace of [resolve] past the shortcut: that of the cache block,
    then that of the network statements if the block fell through. *)
Lemma resolve_trace k use_cache st :
  is_connected client st = true ->
  is_self (Some k) = false ->
  trace (resolve utils client (Some k) use_cache st)
  = (trace (cache_tier utils client k use_cache st)
       ++ match res (cache_tier utils client k use_cache st) with
          | Ok None =>
              trace (network_tier utils client k
                       (final (cache_tier utils client k use_cache st)))
          | _ => []
          end)%list.
Proof.
  intros C S. rewrite resolve_unfold by assumption. rewrite trace_bind.
  destruct (res (cache_tier utils client k use_cache st)) as [[p|]|e];
    reflexivity.
Qed.

(** X11. Whatever the identifier, the flag and the client, [resolve] sends
    one request to the server at most. *)
Theorem resolve_at_most_one_request peer_id use_cache st :
  (List.length (requests (trace (resolve utils client peer_id use_cache st)))
   <= 1)%nat.
Proof.
  destruct (is_connected client st) eqn:C;
    [|unfold resolve; rewrite C; simpl; lia].
  destruct peer_id as [k|]; [|unfold resolve; rewrite C; simpl; lia].
  destruct (is_self (Some k)) eqn:S;
    [unfold resolve; rewrite C, S; simpl; lia|].
  rewrite (resolve_trace _ _ _ C S), requests_app, cache_tier_no_request.
  simpl.
  destruct (res (cache_tier utils client k use_cache st)) as [[p|]|e];
    simpl; try lia.
  destruct (network_tier_trace utils client k
              (final (cache_tier utils client k use_cache st)))
    as [-> | [q ->]]; simpl; lia.
Qed.

(** ** The SQLite fallback *)

(** X12. [_resolve_cached_username] goes to the SQLite table only when
    [get_peer_by_username] raises AttributeError: its result, a peer or
    any other error, is handed on after that single call. *)
Theorem cached_username_direct username st o st1 :
  storage_get_peer_by_username client username st = (o, st1) ->
  (forall e, o = Raise e -> exn_cls e <> AttributeError) ->
  _resolve_cached_username utils client username st =
    {| res := o; final := st1; trace := [EvGetPeerByUsername username] |}.
Proof.
  intros G N. unfold _resolve_cached_username, try_except, call.
  rewrite G. simpl. destruct o as [p|e]; [reflexivity|].
  unfold is_AttributeError.
  destruct (exn_cls e) eqn:E; try reflexivity. now elim (N e eq_refl).
Qed.

(** X13. When [get_peer_by_username] raises AttributeError, the table is
    asked for the username in lower case: a row is converted to an input
    peer, and no row is the KeyError "Username ... not in cache". *)
Theorem cached_username_sqlite_fallback username st e st1 cur st2 row st3 :
  storage_get_peer_by_username client username st = (Raise e, st1) ->
  exn_cls e = AttributeError ->
  storage_conn_execute client select_peer (PyStr.lower username) st1
    = (Ok cur, st2) ->
  cursor_fetchone client cur st2 = (Ok row, st3) ->
  _resolve_cached_username utils client username st =
    {| res := match row with
              | Some r =>
                  match parse_peer_row utils r with
                  | Ok o => get_input_peer utils o
                  | Raise e' => Raise e'
                  end
              | None =>
                  Raise (Exc KeyError
                             ("Username " ++ username ++ " not in cache"))
              end;
       final := st3;
       trace := [EvGetPeerByUsername username;
                 EvExecute select_peer (PyStr.lower username);
                 EvFetchone] |}.
Proof.
  intros G A X F.
  unfold _resolve_cached_username, try_except, bind, call, lift, raise, after.
  rewrite G. simpl. unfold is_AttributeError. rewrite A. simpl.
  rewrite X. simpl. rewrite F. simpl.
  destruct row as [r|]; simpl; [|reflexivity].
  destruct (parse_peer_row utils r); reflexivity.
Qed.

(** X14. A username missing from the SQLite table is a cache miss for
    [resolve]: the KeyError is logged and the network statements run. *)
Theorem resolve_sqlite_missing_row s st e st1 cur st2 st3 :
  is_connected client st = true ->
  is_self (Some (KStr s)) = false ->
  storage_get_peer_by_username client s st = (Raise e, st1) ->
  exn_cls e = AttributeError ->
  storage_conn_execute client select_peer (PyStr.lower s) st1 = (Ok cur, st2) ->
  cursor_fetchone client cur st2 = (Ok None, st3) ->
  resolve utils client (Some (KStr s)) true st =
    after [EvGetPeerByUsername s;
           EvExecute select_peer (PyStr.lower s);
           EvFetchone;
           EvLogDebug "Cache miss"
                      (Exc KeyError ("Username " ++ s ++ " not in cache"))]
          (network_tier utils client (KStr s) st3).
Proof.
  intros C S G A X F.
  assert (L : cache_lookup utils client (KStr s) st =
              {| res := Raise (Exc KeyError ("Username " ++ s ++ " not in cache"));
                 final := st3;
                 trace := [EvGetPeerByUsername s;
                           EvExecute select_peer (PyStr.lower s);
                           EvFetchone] |}).
  { simpl.
    unfold _resolve_cached_username, try_except, bind, call, lift, raise, after.
    rewrite G. simpl. unfold is_AttributeError. rewrite A. simpl.
    rewrite X. simpl. rewrite F. reflexivity. }
  rewrite (resolve_falls_through _ _ _ _ _ _ _ C S
             (cache_tier_miss _ _ _ _ _ _ _ L eq_refl)).
  reflexivity.
Qed.

(** ** Lookup by id *)

(** X15. [_resolve_by_id] converts the first object of the answer and leaves
    the others alone. *)
Theorem by_id_first_item n t st x l st1 :
  get_peer_type utils n = Ok t ->
  invoke client (by_id_request utils t n) st
    = (Ok (by_id_answer t (x :: l)), st1) ->
  _resolve_by_id utils client n st =
    {| res := get_input_peer utils x; final := st1;
       trace := [EvInvoke (by_id_request utils t n)] |}.
Proof.
  intros T I. unfold _resolve_by_id, by_id_request, by_id_answer in *.
  unfold bind at 1. unfold lift at 1. rewrite T. simpl.
  destruct (String.eqb t "user"); [|destruct (String.eqb t "chat")];
    unfold bind, call, lift, after; rewrite I; reflexivity.
Qed.


(** X17. A number that [utils.get_peer_type] rejects is refused by [resolve]
    with that error before anything is sent to the server. *)
Theorem resolve_invalid_id_no_request n use_cache st st1 t1 e :
  is_connected client st = true ->
  cache_tier utils client (KInt n) use_cache st =
    {| res := Ok None; final := st1; trace := t1 |} ->
  get_peer_type utils n = Raise e ->
  resolve utils client (Some (KInt n)) use_cache st =
    {| res := Raise e; final := st1; trace := t1 |}
  /\ requests t1 = [].
Proof.
  intros C T G. split.
  - rewrite (resolve_falls_through utils client (KInt n) _ _ _ _ C eq_refl T).
    simpl. unfold _resolve_by_id, bind, lift, after. rewrite G. simpl.
    now rewrite app_nil_r.
  - pose proof (cache_tier_no_request utils client (KInt n) use_cache st) as R.
    now rewrite T in R.
Qed.

(** ** Lookup by username *)

(** X18. A string without "/" - a username, with or without "@", or a string
    of digits - is looked up by username, under its normal form, and in
    no other way. *)
Theorem resolve_plain_string_by_username s st :
  is_connected client st = true ->
  is_self (Some (KStr s)) = false ->
  no_slash s = true ->
  trace (resolve utils client (Some (KStr s)) false st) =
    [EvInvoke (ResolveUsername
                 (Re.sub_class_empty Parse.decoration (PyStr.lower s)))].
Proof.
  intros C S N.
  rewrite (resolve_falls_through _ _ _ _ _ _ _ C S (cache_tier_off _ _ _ st)).
  unfold after. cbn [trace app].
  rewrite (network_tier_username _ _ _ _ _
             (parse_no_slash (get_channel_id utils) s N)).
  apply username_api_trace.
Qed.

(** X19. For such a string, when the server answers with a user, [resolve]
    returns the user with that id; when it answers with a channel, the
    channel with [get_channel_id] of that id. *)
Theorem resolve_username_answer s st p st1 :
  is_connected client st = true ->
  is_self (Some (KStr s)) = false ->
  no_slash s = true ->
  invoke client
         (ResolveUsername (Re.sub_class_empty Parse.decoration (PyStr.lower s)))
         st = (Ok (ResolvedPeer p), st1) ->
  match p with
  | PeerUser user_id =>
      res (resolve utils client (Some (KStr s)) false st)
      = Ok (InputPeerUser user_id 0)
  | PeerChannel channel_id =>
      res (resolve utils client (Some (KStr s)) false st)
      = Ok (InputPeerChannel (get_channel_id utils channel_id) 0)
  | PeerChat _ =>
      res (resolve utils client (Some (KStr s)) false st)
      = Raise (Exc PeerIdInvalid "Invalid peer type in API response")
  end.
Proof.
  intros C S N I.
  rewrite (resolve_falls_through _ _ _ _ _ _ _ C S (cache_tier_off _ _ _ st)).
  unfold after. cbn [res].
  rewrite (network_tier_username _ _ _ _ _
             (parse_no_slash (get_channel_id utils) s N)).
  unfold _resolve_username_api, bind, call. rewrite I. simpl.
  destruct p; reflexivity.
Qed.

(** ** Private links *)

(** X20. A link that parses to the channel number [n]: when [get_channel_id]
    undoes itself on [n] and the marked id is in the channel range, the
    request sent is GetChannels for the channel [n] written in the
    link. *)
Theorem resolve_private_link_channel s n st :
  is_connected client st = true ->
  is_self (Some (KStr s)) = false ->
  _parse_input_string utils s = Ok (PInt (get_channel_id utils n)) ->
  get_channel_id utils (get_channel_id utils n) = n ->
  get_peer_type utils (get_channel_id utils n) = Ok "channel" ->
  trace (resolve utils client (Some (KStr s)) false st) =
    [EvInvoke (GetChannels [{| ic_channel_id := n; ic_access_hash := 0 |}])].
Proof.
  intros C S P V T.
  rewrite (resolve_falls_through _ _ _ _ _ _ _ C S (cache_tier_off _ _ _ st)).
  unfold after. cbn [trace app]. unfold network_tier. rewrite trace_bind.
  unfold lift at 1 2. simpl. unfold lift. rewrite P. simpl.
  rewrite by_id_trace, T. simpl. unfold channels_request. now rewrite V.
Qed.

End EndToEnd.

(* ===================================================================== *)
(** * The further properties at work *)

Lemma parse_string_normalized_witness :
  PyStr.lower "someuser1" = "someuser1" /\ undecorated "someuser1" = true.
Proof.
  apply (parse_string_normalized Pyrogram.get_channel_id "@Some User+1").
  reflexivity.
Defined.

Lemma parse_twice_stable_witness :
  Parse._parse_input_string Pyrogram.get_channel_id "durov" = Ok (PStr "durov").
Proof.
  apply (parse_twice_stable Pyrogram.get_channel_id "https://t.me/Durov");
    reflexivity.
Defined.

Lemma parse_number_needs_link_witness : no_slash "t.me/123" = false.
Proof.
  apply (parse_number_needs_link Pyrogram.get_channel_id "t.me/123"
           (-1000000000123)).
  reflexivity.
Defined.

Lemma parse_link_without_segment_witness :
  Parse._parse_input_string Pyrogram.get_channel_id "https://T.me/+AbCd"
  = Ok (PStr "https://t.me/abcd").
Proof.
  apply (parse_link_without_segment Pyrogram.get_channel_id
           "https://T.me/+AbCd" "https://" "t.me/" "+abcd").
  - simpl; auto.
  - simpl; auto.
  - reflexivity.
  - reflexivity.
Defined.

Lemma parse_numeric_segment_witness :
  Parse._parse_input_string Pyrogram.get_channel_id "t.me/c/1234567890/55"
  = Ok (PInt (-1001234567890)).
Proof.
  apply (parse_numeric_segment Pyrogram.get_channel_id
           "t.me/c/1234567890/55" "" "t.me/" "c/1234567890/55"
           "1234567890" "/55").
  - simpl; auto.
  - simpl; auto.
  - reflexivity.
  - right; reflexivity.
  - discriminate.
  - reflexivity.
  - unfold PyStr.max_str_digits. simpl. lia.
  - reflexivity.
Defined.

Lemma parse_named_segment_witness :
  Parse._parse_input_string Pyrogram.get_channel_id "Telegram.me/Durov_1?x=2"
  = Ok (PStr "durov_1").
Proof.
  apply (parse_named_segment Pyrogram.get_channel_id
           "Telegram.me/Durov_1?x=2" "" "telegram.me/" "durov_1?x=2"
           "durov_1" "?x=2").
  - simpl; auto.
  - simpl; auto 6.
  - reflexivity.
  - left; split; reflexivity.
  - reflexivity.
  - reflexivity.
  - reflexivity.
Defined.

Lemma resolve_cache_hit_witness :
  resolve Sample.utils Sample.sqlite_client (Some (KStr "@Durov")) true 0%nat =
    {| res := Ok (InputPeerUser 7 99); final := 3%nat;
       trace := [EvGetPeerByUsername "@Durov";
                 EvExecute select_peer "@durov";
                 EvFetchone] |}
  /\ requests [EvGetPeerByUsername "@Durov";
               EvExecute select_peer "@durov";
               EvFetchone] = [].
Proof.
  apply (resolve_cache_hit Sample.utils Sample.sqlite_client
           (KStr "@Durov") 0%nat); reflexivity.
Defined.

Lemma resolve_cache_error_propagates_witness :
  resolve Sample.utils Worlds.damaged (Some (KInt 5)) true 0%nat =
    {| res := Raise (Exc (OtherException "sqlite3.DatabaseError")
                         "database disk image is malformed");
       final := 1%nat; trace := [EvGetPeerById 5] |}
  /\ requests [EvGetPeerById 5] = [].
Proof.
  apply (resolve_cache_error_propagates Sample.utils Worlds.damaged
           (KInt 5) 0%nat).
  - reflexivity.
  - reflexivity.
  - reflexivity.
  - simpl. intros [H|[H|[H|[]]]]; discriminate H.
Defined.

Lemma cached_username_direct_witness :
  _resolve_cached_username Sample.utils Sample.client "durov" 0%nat =
    {| res := Raise (Exc KeyError "Username not found"); final := 1%nat;
       trace := [EvGetPeerByUsername "durov"] |}.
Proof.
  apply (cached_username_direct Sample.utils Sample.client "durov" 0%nat).
  - reflexivity.
  - intros e H. injection H as <-. discriminate.
Defined.

Lemma cached_username_sqlite_fallback_witness :
  _resolve_cached_username Sample.utils Sample.sqlite_client "Durov" 0%nat =
    {| res := Ok (InputPeerUser 7 99); final := 3%nat;
       trace := [EvGetPeerByUsername "Durov";
                 EvExecute select_peer "durov";
                 EvFetchone] |}.
Proof.
  apply (cached_username_sqlite_fallback Sample.utils Sample.sqlite_client
           "Durov" 0%nat
           (Exc AttributeError "no get_peer_by_username") 1%nat tt 2%nat
           (Some (InputPeerUser 7 99)) 3%nat); reflexivity.
Defined.

Lemma resolve_sqlite_missing_row_witness :
  resolve Sample.utils Worlds.empty_table (Some (KStr "Durov")) true 0%nat =
    after [EvGetPeerByUsername "Durov";
           EvExecute select_peer "durov";
           EvFetchone;
           EvLogDebug "Cache miss"
                      (Exc KeyError "Username Durov not in cache")]
          (network_tier Sample.utils Worlds.empty_table (KStr "Durov") 3%nat).
Proof.
  apply (resolve_sqlite_missing_row Sample.utils Worlds.empty_table
           "Durov" 0%nat
           (Exc AttributeError "no get_peer_by_username") 1%nat tt 2%nat 3%nat);
    reflexivity.
Defined.

Lemma by_id_first_item_witness :
  _resolve_by_id Sample.utils Sample.client 5 0%nat =
    {| res := Ok (InputPeerUser 7 99); final := 1%nat;
       trace := [EvInvoke (GetUsers [{| iu_user_id := 5;
                                        iu_access_hash := 0 |}])] |}.
Proof.
  apply (by_id_first_item Sample.utils Sample.client 5 "user" 0%nat
           (InputPeerUser 7 99) [] 1%nat); reflexivity.
Defined.


Lemma resolve_invalid_id_no_request_witness :
  resolve Sample.utils Sample.client (Some (KInt 0)) false 0%nat =
    {| res := Raise (Exc ValueError "Peer id invalid"); final := 0%nat;
       trace := [] |}
  /\ requests [] = [].
Proof.
  apply (resolve_invalid_id_no_request Sample.utils Sample.client 0 false
           0%nat 0%nat []); reflexivity.
Defined.

Lemma resolve_plain_string_by_username_witness :
  trace (resolve Sample.utils Sample.client (Some (KStr "12345")) false 0%nat)
  = [EvInvoke (ResolveUsername "12345")].
Proof.
  apply (resolve_plain_string_by_username Sample.utils Sample.client
           "12345" 0%nat); reflexivity.
Defined.

Lemma resolve_username_answer_witness :
  res (resolve Sample.utils Sample.sqlite_client (Some (KStr "@Durov")) false
               0%nat)
  = Ok (InputPeerChannel (-1001234567890) 0).
Proof.
  apply (resolve_username_answer Sample.utils Sample.sqlite_client
           "@Durov" 0%nat (PeerChannel 1234567890) 1%nat); reflexivity.
Defined.

Lemma resolve_private_link_channel_witness :
  trace (resolve Sample.utils Sample.client
                 (Some (KStr "https://t.me/c/1234567890/55")) false 0%nat)
  = [EvInvoke (GetChannels [{| ic_channel_id := 1234567890;
                               ic_access_hash := 0 |}])].
Proof.
  apply (resolve_private_link_channel Sample.utils Sample.client
           "https://t.me/c/1234567890/55" 1234567890 0%nat); reflexivity.
Defined.
